(** * The P2FA forced-alignment pipeline of pyfoal

    A shallow embedding of [pyfoal/baselines/p2fa.py] and the properties of
    its text normaliser, pronunciation builder, decoder invoker, alignment
    corrector and batch driver.

    Conventions of the embedding:
    - a Python [str] is the list of its Unicode code points ([list N]);
    - a Python [float] is an exact rational ([Q]): the arithmetic of the
      corrector is the real-number arithmetic of its formulas, binary64
      rounding is not part of the model;
    - code with effects (files, subprocesses, exceptions) lives in the monad
      [M], a state monad over [World] whose results are [Return] or [Raise];
    - the collaborators that are not part of the repository (the G2P engine,
      the numeral expander, the resampler, the HTK binaries, the operating
      system's scheduler) are the fields of the class [Collaborators]. *)

From Stdlib Require Import QArith Qabs Lqa.
From stdpp Require Import gmap strings list fin_maps pretty sorting.

Open Scope Q_scope.

(** ** Python runtime *)

Abbreviation str := (list N).

(** The code points of an ASCII literal. *)
Definition u (s : string) : str :=
  map Ascii.N_of_ascii (String.list_ascii_of_string s).

Abbreviation audio := (list Q).

(** A phoneme of a [pypar.Alignment]: its label and its start and end times
    in seconds. *)
Record Phoneme : Type := mkPhoneme {
  label : str;
  start : Q;
  end_ : Q
}.

Module Py.

Inductive exn : Type :=
| IndexError
| ZeroDivisionError
| FileNotFoundError (path : string)
| ValueError (path : string).

Inductive result (A : Type) : Type :=
| Return (a : A)
| Raise (e : exn).
Arguments Return {A} a.
Arguments Raise {A} e.

(** What a file of the modelled file system holds. *)
Inductive FileData : Type :=
| Wav (samples : audio) (rate : Z)
| TextFile (chunks : list str)
| AlignmentFile (phonemes : list Phoneme)
| Binary (bytes : list N).

Inductive pstatus : Type :=
| Running
| Exited (code : Z).

(** A subprocess: its argument vector and status, and (ghost) what it was
    handed when it was spawned: the files and the statuses of the
    processes spawned before it. *)
Record Proc : Type := mkProc {
  argv : list string;
  status : pstatus;
  view : gmap string FileData;
  peers : list pstatus
}.

Record World : Type := mkWorld {
  files : gmap string FileData;
  procs : list Proc;
  clock : nat;
  ntemp : N
}.

Definition M (A : Type) : Type := World -> result A * World.

Definition ret {A} (a : A) : M A := fun w => (Return a, w).
Definition raise {A} (e : exn) : M A := fun w => (Raise e, w).
Definition bind {A B} (m : M A) (k : A -> M B) : M B :=
  fun w => match m w with
           | (Return a, w') => k a w'
           | (Raise e, w') => (Raise e, w')
           end.

(** [try ... finally]: [cleanup] runs on every exit path. *)
Definition finally {A} (m : M A) (cleanup : World -> World) : M A :=
  fun w => let '(r, w') := m w in (r, cleanup w').

Definition set_files (fs : gmap string FileData) (w : World) : World :=
  mkWorld fs (procs w) (clock w) (ntemp w).
Definition set_procs (ps : list Proc) (w : World) : World :=
  mkWorld (files w) ps (clock w) (ntemp w).
Definition set_status (s : pstatus) (p : Proc) : Proc :=
  mkProc (argv p) s (view p) (peers p).

Definition lift {A} (r : result A) : M A := fun w => (r, w).

(** Python's [sum]: left to right from the integer 0. *)
Definition sum (l : list Q) : Q := fold_left Qplus l 0.

(** [l[0] += x] and [l[-1] = x]; both raise IndexError on an empty list. *)
Definition iadd_first (l : list Q) (x : Q) : result (list Q) :=
  match l with
  | [] => Raise IndexError
  | d :: rest => Return ((d + x) :: rest)
  end.

Definition set_last (l : list Q) (x : Q) : result (list Q) :=
  match l with
  | [] => Raise IndexError
  | _ :: _ => Return (removelast l ++ [x])
  end.

(** [directory / name] of [pathlib]. *)
Definition joinpath (directory name : string) : string :=
  directory +:+ "/" +:+ name.

End Py.
Export Py.

Infix "//" := joinpath (at level 40, left associativity).

Notation "'let*' x := m 'in' k" := (bind m (fun x => k))
  (at level 10, x name, m at level 100, k at level 200).
Notation "m >> k" := (bind m (fun _ => k))
  (at level 100, k at level 200, right associativity).

(** ** The collaborators *)

Class Collaborators : Type := {
  (** [g2p_en.expand.normalize_numbers] *)
  normalize_numbers : str -> str;
  (** [g2p_en.G2p()]: a flat list of phonemes with [" "] between words *)
  g2p : str -> list str;
  (** [resampy.resample audio sr_orig sr_new] *)
  resample : audio -> Z -> Z -> audio;
  (** Unicode's full upper-case mapping of a non-ASCII code point *)
  unicode_upper : N -> str;
  (** what an external program does when it runs to completion: its exit
      code and the files it leaves *)
  exec : list string -> gmap string FileData -> Z * gmap string FileData;
  (** the scheduler: [sched pid t] holds when the background process [pid]
      terminates during step [t] *)
  sched : nat -> nat -> bool;
  (** the order in which the tasks of a pool of [n] tasks complete, as far
      as the scheduler determines it (the others follow in submission
      order) *)
  completion_order : nat -> list nat;
  (** [os.cpu_count()] *)
  cpu_count : nat;
  (** the installation directory [pyfoal.ASSETS_DIR / pyfoal.ALIGNER] *)
  assets : string
}.

(** ** Files, subprocesses and temporary directories *)

Section Runtime.
Context `{Collaborators}.

(** The background process [pid] runs to completion. *)
Definition finish (pid : nat) (w : World) : World :=
  match procs w !! pid with
  | Some p =>
      match status p with
      | Running =>
          let '(code, fs) := exec (argv p) (files w) in
          mkWorld fs (<[pid := set_status (Exited code) p]> (procs w))
                  (clock w) (ntemp w)
      | Exited _ => w
      end
  | None => w
  end.

(** One step of the program: the clock advances and the background
    processes the scheduler selects terminate. *)
Definition tick (w : World) : World :=
  let t := clock w in
  let w := mkWorld (files w) (procs w) (S t) (ntemp w) in
  fold_left (fun w pid => if sched pid t then finish pid w else w)
            (seq 0 (length (procs w))) w.

(** A write: a step of the program that leaves [data] at [path]. *)
Definition write_data (path : string) (data : FileData) (w : World) : World :=
  let w := tick w in
  set_files (<[path := data]> (files w)) w.

(** [soundfile.write(path, audio, rate)] *)
Definition soundfile_write (path : string) (a : audio) (rate : Z) : M unit :=
  fun w => (Return tt, write_data path (Wav a rate) w).

(** [with open(path, 'w') as file: file.write(c) ...] for the chunks [cs] *)
Definition open_write (path : string) (cs : list str) : M unit :=
  fun w => (Return tt, write_data path (TextFile cs) w).

(** A spawn: a step of the program that starts a child with the
    arguments [args]. *)
Definition spawn (args : list string) (w : World) : World :=
  let w := tick w in
  set_procs
    (procs w ++ [mkProc args Running (files w) (map status (procs w))]) w.

(** [subprocess.Popen(args, ...)]: the child starts and the call returns
    its handle at once. *)
Definition Popen (args : list string) : M nat :=
  fun w => (Return (length (procs (tick w))), spawn args w).

Definition exit_code (pid : nat) (w : World) : Z :=
  match procs w !! pid with
  | Some (mkProc _ (Exited code) _ _) => code
  | _ => 0%Z
  end.

(** [Popen.wait()]: blocks until the child has terminated, returns its
    exit code. *)
Definition wait (pid : nat) : M Z :=
  fun w => let w := finish pid (tick w) in (Return (exit_code pid w), w).

(** [with tempfile.TemporaryDirectory() as directory: body]: a fresh
    directory, removed with everything in it on every exit path. *)
Definition rmtree (directory : string) (w : World) : World :=
  set_files
    (filter (fun kv => String.prefix (directory +:+ "/") kv.1 = false)
            (files w)) w.

Definition TemporaryDirectory {A} (body : string -> M A) : M A :=
  fun w =>
    let directory := "/tmp/tmp" +:+ pretty (ntemp w) in
    let w := mkWorld (files w) (procs w) (clock w) (N.succ (ntemp w)) in
    finally (body directory) (rmtree directory) w.

End Runtime.

(** ** Python string operations *)

Module Str.

Definition SPACE : N := 32%N.
Definition NEWLINE : N := 10%N.
Definition TAB : N := 9%N.
Definition HYPHEN : N := 45%N.

(** [text.replace(old, new)] for single characters *)
Definition replace_char (old new : N) (text : str) : str :=
  map (fun c => if N.eqb c old then new else c) text.

(** ['  ' in text] *)
Fixpoint contains_double_space (text : str) : bool :=
  match text with
  | [] => false
  | c :: rest =>
      match rest with
      | [] => false
      | c' :: _ =>
          (N.eqb c SPACE && N.eqb c' SPACE) || contains_double_space rest
      end
  end.

(** [text.replace('  ', ' ')]: the occurrences are replaced from left to
    right and do not overlap. *)
Fixpoint replace_double_space (text : str) : str :=
  match text with
  | [] => []
  | c :: rest =>
      match rest with
      | [] => [c]
      | c' :: rest' =>
          if N.eqb c SPACE && N.eqb c' SPACE
          then SPACE :: replace_double_space rest'
          else c :: replace_double_space rest
      end
  end.

(** [while '  ' in text: text = text.replace('  ', ' ')], with one unit of
    fuel for each iteration. *)
Fixpoint collapse_loop (fuel : nat) (text : str) : str :=
  match fuel with
  | O => text
  | S fuel' =>
      if contains_double_space text
      then collapse_loop fuel' (replace_double_space text)
      else text
  end.

(** Every iteration shortens the text, so its length is fuel enough
    (lemma [collapse_spaces_exits]). *)
Definition collapse_spaces (text : str) : str :=
  collapse_loop (length text) text.

(** [string.punctuation] *)
Definition punctuation : str :=
  u "!" ++ [34%N] ++ u "#$%&'()*+,-./:;<=>?@[\]^_`{|}~".

(** [str.maketrans(x, y, z)] for single characters [x] and [y]: a dict
    from code points to their replacement, [None] for the characters to
    delete. *)
Definition maketrans (x y : N) (z : str) : gmap N (option N) :=
  fold_left (fun table c => <[c := None]> table) z {[x := Some y]}.

(** [text.translate(table)] *)
Definition translate (table : gmap N (option N)) (text : str) : str :=
  flat_map (fun c => match table !! c with
                     | Some (Some c') => [c']
                     | Some None => []
                     | None => [c]
                     end) text.

(** The characters [str.split()] splits at. *)
Definition is_whitespace (c : N) : bool :=
  (N.leb 9 c && N.leb c 13) || (N.leb 28 c && N.leb c 32)
  || N.eqb c 133 || N.eqb c 160 || N.eqb c 5760
  || (N.leb 8192 c && N.leb c 8202)
  || N.eqb c 8232 || N.eqb c 8233 || N.eqb c 8239 || N.eqb c 8287
  || N.eqb c 12288.

(** [text.split()]: the maximal runs of characters that are not
    whitespace; [word] is the run being read. *)
Fixpoint split_from (word : str) (text : str) : list str :=
  match text with
  | [] => match word with [] => [] | _ :: _ => [word] end
  | c :: rest =>
      if is_whitespace c
      then match word with
           | [] => split_from [] rest
           | _ :: _ => word :: split_from [] rest
           end
      else split_from (word ++ [c]) rest
  end.

Definition split (text : str) : list str := split_from [] text.

(** [sep.join(parts)] *)
Fixpoint join {A} (sep : list A) (parts : list (list A)) : list A :=
  match parts with
  | [] => []
  | [p] => p
  | p :: rest => p ++ sep ++ join sep rest
  end.

(** [a <= b] on strings: lexicographic on the code points. *)
Fixpoint leb (a b : str) : bool :=
  match a, b with
  | [], _ => true
  | _ :: _, [] => false
  | x :: a', y :: b' => N.ltb x y || (N.eqb x y && leb a' b')
  end.

(** [sorted(lines)]; the sort is stable. *)
Fixpoint insert_sorted (x : str) (l : list str) : list str :=
  match l with
  | [] => [x]
  | y :: l' => if leb x y then x :: l else y :: insert_sorted x l'
  end.

Definition sorted (lines : list str) : list str :=
  fold_right insert_sorted [] lines.

Section Upper.
Context `{Collaborators}.

Definition upper_char (c : N) : str :=
  if N.ltb c 128
  then [if N.leb 97 c && N.leb c 122 then (c - 32)%N else c]
  else unicode_upper c.

(** [text.upper()] *)
Definition upper (text : str) : str := flat_map upper_char text.
End Upper.

End Str.

(** ** pypar's alignments *)

Module pypar.

Abbreviation Alignment := (list Phoneme).

(** [phoneme.duration()] *)
Definition duration (p : Phoneme) : Q := end_ p - start p.

(** [pypar.Alignment(file)] *)
Definition load (path : string) : M Alignment :=
  fun w => match files w !! path with
           | Some (AlignmentFile phonemes) => (Return phonemes, w)
           | Some _ => (Raise (ValueError path), w)
           | None => (Raise (FileNotFoundError path), w)
           end.

(** Modelled from the spec: [pypar.Alignment.update] belongs to the pypar
    package, which is not part of the sources. "Recompute segment
    start/end timestamps by cumulative sum from corrected durations"; the
    corrected alignment covers [[0, duration]], so the sum starts at 0. *)
Fixpoint update_from (t : Q) (alignment : Alignment) (durations : list Q)
  : Alignment :=
  match alignment, durations with
  | p :: alignment', d :: durations' =>
      mkPhoneme (label p) t (t + d) :: update_from (t + d) alignment' durations'
  | _, _ => []
  end.

Definition update (alignment : Alignment) (durations : list Q) : Alignment :=
  update_from 0 alignment durations.

End pypar.

(** ** The aligner *)

(** The sampling rate that P2FA uses *)
Definition SAMPLE_RATE : Z := 11025%Z.

Module Aligner.

Record self : Type := mkSelf {
  hcopy : string;
  macros : string;
  model : string;
  monophones : string;
  punctuation_table : gmap N (option N)
}.

Section Methods.
Context `{Collaborators}.

Definition __init__ : self :=
  let punctuation :=
    filter (fun s => s <> Str.HYPHEN)
           (Str.punctuation ++ [8221%N; 8220%N; 8212%N]) in
  mkSelf (assets // "config") (assets // "macros") (assets // "hmmdefs")
         (assets // "monophones")
         (Str.maketrans Str.HYPHEN Str.SPACE punctuation).

(** Correct alignment rate and offset *)
Definition correct_alignment (alignment_file : string) (duration : Q)
  : M pypar.Alignment :=
  let* alignment := pypar.load alignment_file in
  let durations := map pypar.duration alignment in
  let* durations := lift (iadd_first durations 0.0125) in
  let durations := map (fun d => d * 11000 / 11025) durations in
  let* durations :=
    lift (set_last durations (duration - sum (removelast durations))) in
  ret (pypar.update alignment durations).

(** Write HTK arguments and convert data to HTK format *)
Definition format (s : self) (directory : string) (a : audio)
    (script_file : string) : M unit :=
  let audiofile := directory // "sound.wav" in
  soundfile_write audiofile a SAMPLE_RATE >>
  let code_file := directory // "codetr.scp" in
  let plp_file := directory // "tmp.plp" in
  open_write code_file [u audiofile ++ u " " ++ u plp_file ++ [Str.NEWLINE]] >>
  open_write script_file [u plp_file ++ [Str.NEWLINE]] >>
  let* _child := Popen ["HCopy"; "-T"; "1"; "-C"; hcopy s; "-S"; code_file] in
  ret tt.

(** Preprocess text for aligner *)
Definition lint (s : self) (text : str) : str :=
  let text := Str.replace_char Str.NEWLINE Str.SPACE text in
  let text := Str.replace_char Str.TAB Str.SPACE text in
  let text := Str.collapse_spaces text in
  let text := normalize_numbers text in
  Str.translate (punctuation_table s) text.

(** Split phoneme list into words; the state of the loop is
    [(word, words)]. *)
Definition split_step (state : list str * list (list str))
    (phoneme : str) : list str * list (list str) :=
  let '(word, words) := state in
  (* Add next phoneme *)
  if bool_decide (phoneme = [Str.SPACE] /\ word <> [])
  then ([], words ++ [word])
  else (word ++ [phoneme], words).

(** Handle final word *)
Definition split_final (state : list str * list (list str))
  : list (list str) :=
  let '(word, words) := state in
  match word with
  | [] => words
  | _ :: _ => words ++ [word]
  end.

Definition split_phonemes (phonemes : list str) : list (list str) :=
  split_final (fold_left split_step phonemes ([], [])).

(** Run viterbi decoding to align *)
Definition viterbi (s : self) (words dictionary directory script_file
    output : string) : M unit :=
  let args := ["HVite"; "-T"; "1"; "-a"; "-m";
               "-I"; words;
               "-H"; macros s;
               "-H"; model s;
               "-S"; script_file;
               "-i"; output;
               "-p"; "0.";
               "-s"; "5.";
               dictionary;
               monophones s] in
  open_write (directory // "aligned.results") [] >>
  let* child := Popen args in
  let* _code := wait child in
  ret tt.

(** ['{}  {}\n'.format(w, ' '.join(p))] *)
Definition dictionary_line (w : str) (p : list str) : str :=
  w ++ u "  " ++ Str.join [Str.SPACE] p ++ [Str.NEWLINE].

(** Write the pronunciation dictionary *)
Definition write_pronunciation (directory : string) (text : str)
  : M string :=
  let phonemes := g2p text in
  let iterator :=
    zip (Str.split (Str.upper text)) (split_phonemes phonemes) in
  let lines := map (fun '(w, p) => dictionary_line w p) iterator in
  let lines := lines ++ [u "sp  sp" ++ [Str.NEWLINE]] in
  let filename := directory // "dictionary" in
  open_write filename (Str.sorted lines) >>
  ret filename.

(** Write the mlf file containing the words to align *)
Definition write_words (directory : string) (text : str) : M string :=
  let filename := directory // "tmp.mlf" in
  open_write filename
    ([u "#!MLF!#" ++ [Str.NEWLINE];
      [34%N] ++ u "*/tmp.lab" ++ [34%N; Str.NEWLINE]]
     ++ flat_map (fun word => [u "sp" ++ [Str.NEWLINE]; word ++ [Str.NEWLINE]])
                 (Str.split (Str.upper text))
     ++ [u "sp" ++ [Str.NEWLINE]]) >>
  ret filename.

(** Retrieve the forced alignment *)
Definition __call__ (s : self) (text : str) (a : audio) (duration : Q)
  : M pypar.Alignment :=
  TemporaryDirectory (fun directory =>
    let script_file := directory // "test.scp" in
    format s directory a script_file >>
    let text := lint s text in
    let alignment_file := directory // "alignment.mlf" in
    let* words := write_words directory text in
    let* dictionary := write_pronunciation directory text in
    viterbi s words dictionary directory script_file alignment_file >>
    correct_alignment alignment_file duration).

End Methods.
End Aligner.

(** ** Loading, saving and the worker pool *)

Module load.

(** Modelled from the spec: [pyfoal.load.text] is not among the sources.
    "load_text(path) -> string ... simple I/O". *)
Definition text (path : string) : M str :=
  fun w => match files w !! path with
           | Some (TextFile chunks) => (Return (concat chunks), w)
           | Some _ => (Raise (ValueError path), w)
           | None => (Raise (FileNotFoundError path), w)
           end.

(** Modelled from the spec: [pyfoal.load.audio] is not among the sources.
    "load_audio(path) -> (samples, sample_rate) ... simple I/O". *)
Definition audio (path : string) : M (audio * Z) :=
  fun w => match files w !! path with
           | Some (Wav samples rate) => (Return (samples, rate), w)
           | Some _ => (Raise (ValueError path), w)
           | None => (Raise (FileNotFoundError path), w)
           end.

End load.

Section Pipeline.
Context `{Collaborators}.

(** [alignment.save(file)] *)
Definition save (alignment : pypar.Alignment) (path : string) : M unit :=
  fun w => (Return tt, write_data path (AlignmentFile alignment) w).

(** The tasks of a pool in the order in which they complete. A task that
    raises ends the run: [starmap] re-raises its exception in the caller,
    and leaving the [with mp.Pool(...)] block terminates the workers. *)
Fixpoint run_tasks {A B} (f : A -> M B) (items : list A) (order : list nat)
    (done : gmap nat B) : M (gmap nat B) :=
  match order with
  | [] => ret done
  | i :: order' =>
      match items !! i, done !! i with
      | Some x, None =>
          let* b := f x in
          run_tasks f items order' (<[i := b]> done)
      | _, _ => run_tasks f items order' done
      end
  end.

(** [with mp.Pool(num_workers) as pool: pool.starmap(f, items)] *)
Definition starmap {A B} (num_workers : nat) (f : A -> M B) (items : list A)
  : M (list B) :=
  let n := length items in
  let* done := run_tasks f items (completion_order n ++ seq 0 n) ∅ in
  ret (omap (fun i => done !! i) (seq 0 n)).

(** Align text and audio using P2FA. The aligner cached in
    [align.aligner] is the constant [Aligner()]. *)
Definition align (text : str) (a : audio) (sample_rate : Z)
  : M pypar.Alignment :=
  let* duration :=
    if decide (sample_rate = 0%Z) then raise ZeroDivisionError
    else ret (inject_Z (Z.of_nat (length a)) / inject_Z sample_rate) in
  (* Maybe resample *)
  (if decide (sample_rate <> SAMPLE_RATE)
   then let _resampled := resample a sample_rate SAMPLE_RATE in ret tt
   else ret tt) >>
  (* Perform forced alignment *)
  Aligner.__call__ Aligner.__init__ text a duration.

(** Align text and audio on disk using P2FA *)
Definition from_file (text_file audio_file : string) : M pypar.Alignment :=
  let* text := load.text text_file in
  let* loaded := load.audio audio_file in
  align text loaded.1 loaded.2.

(** Align text and audio on disk using P2FA and save *)
Definition from_file_to_file (text_file audio_file output_file : string)
  : M unit :=
  let* alignment := from_file text_file audio_file in
  save alignment output_file.

Definition from_files_to_files (text_files audio_files output_files : list string)
    (num_workers : option nat) : M unit :=
  let num_workers := default cpu_count num_workers in
  let iterator := zip (zip text_files audio_files) output_files in
  let* _results :=
    starmap num_workers
            (fun item => from_file_to_file item.1.1 item.1.2 item.2)
            iterator in
  ret tt.

End Pipeline.

(** ** Grapheme-to-phoneme conversion ([pyfoal/g2p/core.py]) *)

Module G2P.
Section Conversion.
Context `{Collaborators}.

(** [c.isdigit()], from the Unicode database *)
Variable isdigit : N -> bool.

(** [pyfoal.convert.phonemes_to_indices], which is not among the sources *)
Variable phonemes_to_indices : list str -> list Z.

Definition SILENT : str := u "<silent>".

(** The text that [from_text] hands to the G2P engine. *)
Definition normalized (text : str) : str :=
  (* Remove newlines, tabs, and extra whitespace *)
  let text := Str.replace_char Str.NEWLINE Str.SPACE text in
  let text := Str.replace_char Str.TAB Str.SPACE text in
  let text := Str.collapse_spaces text in
  (* Convert numbers to text *)
  let text := normalize_numbers text in
  (* Remove punctuation *)
  let punctuation :=
    filter (fun s => s <> Str.HYPHEN)
           (Str.punctuation ++ [8221%N; 8220%N; 8212%N]) in
  Str.translate (Str.maketrans Str.HYPHEN Str.SPACE punctuation) text.

(** The phonemes that [from_text] hands to [phonemes_to_indices], from the
    phonemes of the G2P engine. *)
Definition silenced (phonemes : list str) : result (list str) :=
  (* Remove prominence markings *)
  let phonemes :=
    map (fun phoneme => filter (fun c => isdigit c = false) phoneme) phonemes in
  (* Handle silences *)
  let phonemes :=
    map (fun phoneme =>
           if decide (phoneme = [Str.SPACE]) then SILENT else phoneme)
        phonemes in
  (* Ensure start and end have silent tokens *)
  match phonemes with
  | [] => Raise IndexError
  | first :: _ =>
      let phonemes :=
        if decide (first <> SILENT) then SILENT :: phonemes else phonemes in
      let phonemes :=
        if decide (last phonemes <> Some SILENT) then phonemes ++ [SILENT]
        else phonemes in
      Return phonemes
  end.

(** Convert text to cmu; the tensor is the list of its indices. *)
Definition from_text (text : str) : result (list Z) :=
  (* Grapheme-to-phoneme conversion *)
  let phonemes := g2p (normalized text) in
  match silenced phonemes with
  | Return phonemes => Return (phonemes_to_indices phonemes)
  | Raise e => Raise e
  end.

(** Convert text on disk to phonemes *)
Definition from_file (text_file : string) : M (list Z) :=
  let* text := load.text text_file in
  lift (from_text text).

End Conversion.
End G2P.

(** ** Test doubles for the collaborators *)

Module Fake.

(** A G2P engine that spells: one phoneme for each ASCII capital or small
    letter of a word, and the marker [" "] between words. It has no
    phoneme for the word "hm". *)
Definition is_letter (c : N) : bool :=
  (N.leb 65 c && N.leb c 90) || (N.leb 97 c && N.leb c 122).

Definition spell (word : str) : list str :=
  if decide (word = u "hm") then []
  else map (fun c => [c]) (filter (fun c => is_letter c = true) word).

Fixpoint spell_all (words : list str) : list str :=
  match words with
  | [] => []
  | [w] => spell w
  | w :: rest => spell w ++ [[Str.SPACE]] ++ spell_all rest
  end.

(** A resampler that keeps every second sample when the rate is halved. *)
Fixpoint decimate (a : audio) : audio :=
  match a with
  | x :: _ :: rest => x :: decimate rest
  | _ => a
  end.

(** The argument that follows [flag] in an argument vector. *)
Fixpoint option_of (flag : string) (args : list string) : option string :=
  match args with
  | a :: ((b :: _) as rest) =>
      if String.eqb a flag then Some b else option_of flag rest
  | _ => None
  end.

Definition raw_alignment : pypar.Alignment :=
  [mkPhoneme (u "sp") 0 0.1; mkPhoneme (u "AH") 0.1 0.3;
   mkPhoneme (u "sp") 0.3 0.4].

(** A decoder that writes [raw_alignment] and exits with 0 when the
    dictionary has a word besides the silence entry, and exits with 1
    leaving no output otherwise. The feature extractor does nothing. *)
Definition htk (args : list string) (fs : gmap string FileData)
  : Z * gmap string FileData :=
  match args with
  | "HVite" :: _ =>
      match fs !! default "" (last (removelast args)), option_of "-i" args with
      | Some (TextFile (_ :: _ :: _)), Some output =>
          (0%Z, <[output := AlignmentFile raw_alignment]> fs)
      | _, _ => (1%Z, fs)
      end
  | _ => (0%Z, fs)
  end.

Definition collaborators : Collaborators := {|
  normalize_numbers := fun text => text;
  g2p := fun text => spell_all (Str.split_from [] text);
  resample := fun a sr sr' => if decide (sr = 2 * sr')%Z then decimate a else a;
  unicode_upper := fun c => [c];
  exec := htk;
  sched := fun _ _ => false;
  completion_order := fun _ => [];
  cpu_count := 4;
  assets := "/assets/p2fa"
|}.

(** A decoder that always fails. *)
Definition failing : Collaborators := {|
  normalize_numbers := fun text => text;
  g2p := fun text => spell_all (Str.split_from [] text);
  resample := fun a sr sr' => a;
  unicode_upper := fun c => [c];
  exec := fun _ fs => (1%Z, fs);
  sched := fun _ _ => false;
  completion_order := fun _ => [];
  cpu_count := 4;
  assets := "/assets/p2fa"
|}.

Definition empty_world : World := mkWorld ∅ [] 0 0.

(** A table of indices that numbers a phoneme by its length. *)
Definition indices (phonemes : list str) : list Z :=
  map (fun phoneme => Z.of_nat (length phoneme)) phonemes.



(** A workspace in which the decoder has left [raw_alignment]. *)
Definition decoded_world : World :=
  mkWorld {[ "alignment.mlf" := AlignmentFile raw_alignment ]} [] 0 0.

(** A workspace in which the decoder has left two phonemes of one second
    each. *)
Definition long_world : World :=
  mkWorld {[ "alignment.mlf" :=
               AlignmentFile [mkPhoneme (u "AH") 0 1; mkPhoneme (u "sp") 1 2] ]}
          [] 0 0.

End Fake.

(** ** Vocabulary of the properties *)



(** What [correct_alignment] passes to [update] for the raw durations
    [d :: rest]. *)
Definition corrected (d : Q) (rest : list Q) (duration : Q) : list Q :=
  let durations := map (fun d => d * 11000 / 11025) ((d + 0.0125) :: rest) in
  removelast durations ++ [duration - sum (removelast durations)].

(** The numeral expander rewrites numeric literals; its patterns all need
    an ASCII digit. *)
Definition is_digit (c : N) : bool := N.leb 48 c && N.leb c 57.

Definition digit_free (text : str) : Prop :=
  Forall (fun c => is_digit c = false) text.

Definition fixes_digit_free (expand : str -> str) : Prop :=
  forall text, digit_free text -> expand text = text.

(** The state of the text in [lint] before the numerals are expanded. *)
Definition spaced (text : str) : str :=
  Str.collapse_spaces
    (Str.replace_char Str.TAB Str.SPACE
       (Str.replace_char Str.NEWLINE Str.SPACE text)).

(** The translation table of the aligner. *)
Definition table `{Collaborators} : gmap N (option N) :=
  Aligner.punctuation_table Aligner.__init__.

(** The word marker of the G2P engine. *)
Abbreviation marker := [Str.SPACE] (only parsing).

(** Unicode's upper-case mappings yield no ASCII small letter. *)
Definition upper_sound (mapping : N -> str) : Prop :=
  forall c x, (128 <= c)%N -> x ∈ mapping c -> ~ (97 <= x <= 122)%N.

(** The lines of a file are in non-decreasing order. *)
Definition non_decreasing (lines : list str) : Prop :=
  Sorted (fun a b => Str.leb a b = true) lines.

(** The silence entry of the dictionary. *)
Definition silence_entry : str := u "sp  sp" ++ [Str.NEWLINE].

(** How often a line occurs in a file. *)
Definition occurrences (line : str) (lines : list str) : nat :=
  length (filter (fun l => l = line) lines).

(** A pronunciation that the G2P engine gives for a word it knows: some
    phonemes, none of them the word marker. *)
Definition voiced (pronunciation : list str) : Prop :=
  pronunciation <> [] /\ Forall (fun ph => ph <> [Str.SPACE]) pronunciation.

(** The output format of the G2P engine: the pronunciations of the words
    with the marker [" "] between them. *)
Definition marked (pronunciations : list (list str)) : list str :=
  Str.join [[Str.SPACE]] pronunciations.

(** A process keeps its arguments and what it was handed when it was
    spawned; once it has exited, its status is settled. *)
Definition evolves (p q : Proc) : Prop :=
  argv q = argv p /\ view q = view p /\ peers q = peers p /\
  forall code, status p = Exited code -> status q = Exited code.

(** The processes of [w] are processes of [w'], under the same handles. *)
Definition extends (w w' : World) : Prop :=
  forall pid p,
    procs w !! pid = Some p -> exists q, procs w' !! pid = Some q /\ evolves p q.

(** No child process is running. *)
Definition quiescent (w : World) : Prop :=
  Forall (fun p => status p <> Running) (procs w).


(** The characters that the aligner strips or replaces. *)
Definition strip_set : str := Str.punctuation ++ [8221%N; 8220%N; 8212%N].

(** * Properties *)

(** ** The alignment corrector *)

Section Corrector.

Lemma sum_from (l : list Q) (a : Q) :
  fold_left Qplus l a == a + sum l.
Proof.
  unfold sum. revert a.
  induction l as [|x l IH]; intros a; simpl.
  - ring.
  - rewrite (IH (a + x)), (IH (0 + x)). ring.
Qed.

Lemma sum_cons (x : Q) (l : list Q) : sum (x :: l) == x + sum l.
Proof. unfold sum at 1. simpl. rewrite sum_from. ring. Qed.


Lemma sum_pointwise (l l' : list Q) :
  Forall2 Qeq l l' -> sum l == sum l'.
Proof.
  induction 1 as [|x y l l' Hxy _ IH].
  - reflexivity.
  - rewrite !sum_cons, Hxy, IH. reflexivity.
Qed.

Lemma update_from_length (alignment : pypar.Alignment) :
  forall (t : Q) (durations : list Q),
    length durations = length alignment ->
    length (pypar.update_from t alignment durations) = length alignment.
Proof.
  induction alignment as [|p al IH]; intros t [|d ds] Hlen;
    simpl in *; try congruence.
  f_equal. apply IH. congruence.
Qed.

(** The phonemes of an updated alignment last as long as asked. *)
Lemma update_from_durations (alignment : pypar.Alignment) :
  forall (t : Q) (durations : list Q),
    length durations = length alignment ->
    Forall2 Qeq (map pypar.duration (pypar.update_from t alignment durations))
            durations.
Proof.
  induction alignment as [|p al IH]; intros t [|d ds] Hlen;
    simpl in *; try congruence; constructor.
  - unfold pypar.duration. simpl. ring.
  - apply IH. congruence.
Qed.



Lemma corrected_length (d : Q) (rest : list Q) (duration : Q) :
  length (corrected d rest duration) = S (length rest).
Proof.
  unfold corrected.
  rewrite length_app, removelast_firstn_len, length_take. simpl.
  rewrite length_map. lia.
Qed.


(** The run of [correct_alignment] on a decoder output. *)
Lemma correct_alignment_run (w : World) (alignment_file : string)
    (raw : pypar.Alignment) (duration : Q) :
  files w !! alignment_file = Some (AlignmentFile raw) ->
  Aligner.correct_alignment alignment_file duration w =
  match map pypar.duration raw with
  | [] => (Raise IndexError, w)
  | d :: rest => (Return (pypar.update raw (corrected d rest duration)), w)
  end.
Proof.
  intros Hfile.
  unfold Aligner.correct_alignment, bind, pypar.load. rewrite Hfile.
  destruct raw as [|p raw]; reflexivity.
Qed.





(** C7, as the code has it: [correct_alignment] raises (IndexError) when
    the decoder output has no segment; for every other output it returns
    an alignment whose last duration is the remainder D - sum(preceding
    corrected durations), whatever its sign: the remainder is negative
    when D is below that sum, and it is neither rejected nor clamped. *)
Theorem correct_alignment_no_sign_check (w : World) (alignment_file : string)
    (raw : pypar.Alignment) (D : Q) :
  files w !! alignment_file = Some (AlignmentFile raw) ->
  (raw = [] ->
   Aligner.correct_alignment alignment_file D w = (Raise IndexError, w)) /\
  (raw <> [] ->
   exists (alignment : pypar.Alignment) (p : Phoneme),
     Aligner.correct_alignment alignment_file D w = (Return alignment, w) /\
     last alignment = Some p /\
     pypar.duration p
       == D - sum (removelast (map pypar.duration alignment)) /\
     (D < sum (removelast (map pypar.duration alignment)) ->
      pypar.duration p < 0)).
Proof.
  intros Hfile. rewrite (correct_alignment_run _ _ _ _ Hfile). split.
  - intros ->. reflexivity.
  - intros Hraw. destruct raw as [|p0 raw]; [congruence|]. cbn [map].
    set (cs := corrected _ _ _).
    assert (Hlen : length cs = length (p0 :: raw)).
    { unfold cs. rewrite corrected_length, length_map. reflexivity. }
    pose proof (update_from_durations (p0 :: raw) 0 cs Hlen) as Hdur.
    fold (pypar.update (p0 :: raw) cs) in Hdur.
    pose proof (update_from_length (p0 :: raw) 0 cs Hlen) as Hlen'.
    fold (pypar.update (p0 :: raw) cs) in Hlen'.
    destruct (last (pypar.update (p0 :: raw) cs)) as [p|] eqn:Hlast.
    2:{ apply last_None in Hlast. rewrite Hlast in Hlen'. discriminate. }
    exists (pypar.update (p0 :: raw) cs), p.
    split; [reflexivity|]. split; [exact Hlast|].
    apply last_Some in Hlast as [front Hfront].
    rewrite Hfront in Hdur |- *.
    rewrite map_app in Hdur |- *. cbn [map] in Hdur |- *.
    rewrite removelast_last.
    unfold cs, corrected in Hdur.
    apply Forall2_app_inv in Hdur as [Hfront_eq Hlast_eq].
    2:{ rewrite length_map. rewrite Hfront in Hlen'.
        rewrite length_app in Hlen'. simpl in Hlen'.
        rewrite removelast_firstn_len, length_take. simpl.
        rewrite !length_map. lia. }
    apply Forall2_cons_1 in Hlast_eq as [Hp _].
    assert (Heq : pypar.duration p == D - sum (map pypar.duration front)).
    { rewrite Hp. rewrite (sum_pointwise _ _ Hfront_eq). reflexivity. }
    split; [exact Heq|].
    intros Hlt. rewrite Heq. lra.
Qed.

Lemma correct_alignment_no_sign_check_witness :
  (Fake.raw_alignment = [] ->
   Aligner.correct_alignment "alignment.mlf" 0.2 Fake.decoded_world
   = (Raise IndexError, Fake.decoded_world)) /\
  (Fake.raw_alignment <> [] ->
   exists (alignment : pypar.Alignment) (p : Phoneme),
     Aligner.correct_alignment "alignment.mlf" 0.2 Fake.decoded_world
     = (Return alignment, Fake.decoded_world) /\
     last alignment = Some p /\
     pypar.duration p
       == 0.2 - sum (removelast (map pypar.duration alignment)) /\
     (0.2 < sum (removelast (map pypar.duration alignment)) ->
      pypar.duration p < 0)).
Proof.
  apply (correct_alignment_no_sign_check Fake.decoded_world "alignment.mlf"
           Fake.raw_alignment 0.2).
  reflexivity.
Defined.

(** C7 fails as stated: the decoder reports two phonemes of one second
    each for an audio of half a second; [correct_alignment] returns an
    alignment whose last phoneme has a negative duration. *)
Lemma correct_alignment_returns_negative :
  exists (alignment : pypar.Alignment) (p : Phoneme),
    Aligner.correct_alignment "alignment.mlf" 0.5 Fake.long_world
    = (Return alignment, Fake.long_world) /\
    last alignment = Some p /\
    pypar.duration p < 0.
Proof.
  eexists _, _. split; [reflexivity|]. split; [reflexivity|].
  reflexivity.
Qed.

End Corrector.

(** ** The text normaliser *)

Section Normalizer.

(** Induction that follows the two-character window of the scans. *)
Lemma window_ind (P : str -> Prop) :
  P [] ->
  (forall c, P [c]) ->
  (forall c c' rest, P rest -> P (c' :: rest) -> P (c :: c' :: rest)) ->
  forall text, P text.
Proof.
  intros Hnil Hone Hstep.
  assert (Hboth : forall text, P text /\ forall c, P (c :: text)).
  { induction text as [|c' rest [IH1 IH2]]; split; auto. }
  intros text. apply Hboth.
Qed.

Lemma replace_double_space_le (text : str) :
  (length (Str.replace_double_space text) <= length text)%nat.
Proof.
  induction text as [|c|c c' rest IH1 IH2] using window_ind; simpl; try lia.
  destruct (N.eqb c Str.SPACE && N.eqb c' Str.SPACE); simpl in *; lia.
Qed.

(** An iteration of the loop shortens the text. *)
Lemma replace_double_space_lt (text : str) :
  Str.contains_double_space text = true ->
  (length (Str.replace_double_space text) < length text)%nat.
Proof.
  induction text as [|c|c c' rest IH1 IH2] using window_ind; simpl;
    try discriminate.
  destruct (N.eqb c Str.SPACE && N.eqb c' Str.SPACE); simpl.
  - intros _. pose proof (replace_double_space_le rest). lia.
  - intros Hin. specialize (IH2 Hin). simpl in IH2. lia.
Qed.

Lemma collapse_loop_exits (fuel : nat) :
  forall text, (length text <= fuel)%nat ->
    Str.contains_double_space (Str.collapse_loop fuel text) = false.
Proof.
  induction fuel as [|fuel IH]; intros text Hlen; simpl.
  - destruct text; [reflexivity | simpl in Hlen; lia].
  - destruct (Str.contains_double_space text) eqn:Hin; [|exact Hin].
    apply IH. pose proof (replace_double_space_lt text Hin). lia.
Qed.

(** The fuel of [collapse_spaces] suffices: the loop is left because its
    condition fails. *)
Lemma collapse_spaces_exits (text : str) :
  Str.contains_double_space (Str.collapse_spaces text) = false.
Proof. apply collapse_loop_exits. reflexivity. Qed.

Lemma collapse_spaces_fixed (text : str) :
  Str.contains_double_space text = false -> Str.collapse_spaces text = text.
Proof.
  unfold Str.collapse_spaces. intros Hin.
  destruct (length text); simpl; [reflexivity|]. rewrite Hin. reflexivity.
Qed.

(** The scans introduce no character. *)
Lemma replace_double_space_Forall (P : N -> Prop) (text : str) :
  Forall P text -> Forall P (Str.replace_double_space text).
Proof.
  induction text as [|c|c c' rest IH1 IH2] using window_ind; simpl; auto.
  intros Hall. inversion Hall as [|? ? Hc Hrest]; subst.
  inversion Hrest as [|? ? Hc' Hrest']; subst.
  destruct (N.eqb c Str.SPACE && N.eqb c' Str.SPACE) eqn:Hsp.
  - constructor; [|auto].
    apply andb_true_iff in Hsp as [Hsp _].
    apply N.eqb_eq in Hsp. rewrite <- Hsp. exact Hc.
  - constructor; auto.
Qed.

Lemma collapse_loop_Forall (P : N -> Prop) (fuel : nat) :
  forall text, Forall P text -> Forall P (Str.collapse_loop fuel text).
Proof.
  induction fuel as [|fuel IH]; intros text Hall; simpl; [exact Hall|].
  destruct (Str.contains_double_space text); [|exact Hall].
  apply IH, replace_double_space_Forall, Hall.
Qed.

Lemma collapse_spaces_Forall (P : N -> Prop) (text : str) :
  Forall P text -> Forall P (Str.collapse_spaces text).
Proof. apply collapse_loop_Forall. Qed.

Lemma replace_char_Forall (P : N -> Prop) (old new : N) (text : str) :
  P new -> Forall P text -> Forall P (Str.replace_char old new text).
Proof.
  intros Hnew Hall. unfold Str.replace_char.
  apply Forall_map. eapply Forall_impl; [exact Hall|].
  intros c Hc. simpl. destruct (N.eqb c old); assumption.
Qed.

Lemma replace_char_absent (old new : N) (text : str) :
  Forall (fun c => c <> old) text -> Str.replace_char old new text = text.
Proof.
  induction 1 as [|c rest Hc _ IH]; simpl; [reflexivity|].
  rewrite IH. apply N.eqb_neq in Hc. rewrite Hc. reflexivity.
Qed.

Lemma replace_char_gone (old new : N) (text : str) :
  new <> old -> Forall (fun c => c <> old) (Str.replace_char old new text).
Proof.
  intros Hne. unfold Str.replace_char. apply Forall_map, Forall_forall.
  intros c _. simpl. destruct (N.eqb_spec c old); congruence.
Qed.

Lemma translate_Forall (P : N -> Prop) (table : gmap N (option N))
    (text : str) :
  (forall c c', table !! c = Some (Some c') -> P c') ->
  Forall P text -> Forall P (Str.translate table text).
Proof.
  intros Htable. unfold Str.translate.
  induction 1 as [|c rest Hc _ IH]; simpl; [constructor|].
  destruct (table !! c) as [[c'|]|] eqn:Hlook; simpl; auto.
  constructor; [|exact IH]. eapply Htable, Hlook.
Qed.

(** What [translate] yields is outside of the table when the replacement
    characters are. *)
Lemma translate_outside (table : gmap N (option N)) (text : str) :
  (forall c c', table !! c = Some (Some c') -> table !! c' = None) ->
  Forall (fun c => table !! c = None) (Str.translate table text).
Proof.
  intros Htable. unfold Str.translate.
  induction text as [|c rest IH]; simpl; [constructor|].
  destruct (table !! c) as [[c'|]|] eqn:Hlook; simpl; auto.
  constructor; [|exact IH]. eapply Htable, Hlook.
Qed.

Lemma translate_fixed (table : gmap N (option N)) (text : str) :
  Forall (fun c => table !! c = None) text -> Str.translate table text = text.
Proof.
  unfold Str.translate.
  induction 1 as [|c rest Hc _ IH]; simpl; [reflexivity|].
  rewrite Hc, IH. reflexivity.
Qed.

Section Lint.
Context `{Collaborators}.

(** The table deletes, or replaces by a space. *)
Lemma punctuation_table_entries (c : N) (c' : N) :
  table !! c = Some (Some c') -> c' = Str.SPACE.
Proof.
  assert (Hall : map_Forall
            (fun _ v => v = None \/ v = Some Str.SPACE) table).
  { apply (bool_decide_unpack _). vm_compute. exact I. }
  intros Hlook. destruct (Hall c _ Hlook) as [Hv|Hv]; congruence.
Qed.

Lemma punctuation_table_space : table !! Str.SPACE = None.
Proof. reflexivity. Qed.

Lemma spaced_Forall (P : N -> Prop) (text : str) :
  P Str.SPACE -> Forall P text -> Forall P (spaced text).
Proof.
  intros Hsp Hall. unfold spaced.
  apply collapse_spaces_Forall.
  do 2 (apply replace_char_Forall; [exact Hsp|]). exact Hall.
Qed.

Lemma lint_digit_free (text : str) :
  fixes_digit_free normalize_numbers ->
  digit_free text ->
  Aligner.lint Aligner.__init__ text = Str.translate table (spaced text).
Proof.
  intros Hfix Hfree. unfold Aligner.lint. fold (spaced text).
  rewrite Hfix; [reflexivity|].
  apply spaced_Forall; [reflexivity | exact Hfree].
Qed.

(** On a text that [lint] has produced, only the collapsing of spaces
    is left to do. *)
Lemma lint_lint (text : str) :
  fixes_digit_free normalize_numbers ->
  digit_free text ->
  Aligner.lint Aligner.__init__ (Aligner.lint Aligner.__init__ text)
  = Str.collapse_spaces (Aligner.lint Aligner.__init__ text).
Proof.
  intros Hfix Hfree.
  rewrite (lint_digit_free text Hfix Hfree).
  set (once := Str.translate table (spaced text)).
  assert (Hdigits : digit_free once).
  { apply translate_Forall.
    - intros c c' Hlook.
      rewrite (punctuation_table_entries c c' Hlook). reflexivity.
    - apply spaced_Forall; [reflexivity | exact Hfree]. }
  assert (Houtside : Forall (fun c => table !! c = None) once).
  { apply translate_outside. intros c c' Hlook.
    rewrite (punctuation_table_entries c c' Hlook).
    exact punctuation_table_space. }
  assert (Hlines : Forall (fun c => c <> Str.NEWLINE) once).
  { apply translate_Forall.
    - intros c c' Hlook.
      rewrite (punctuation_table_entries c c' Hlook). discriminate.
    - unfold spaced. apply collapse_spaces_Forall.
      apply replace_char_Forall; [discriminate|].
      apply replace_char_gone. discriminate. }
  assert (Htabs : Forall (fun c => c <> Str.TAB) once).
  { apply translate_Forall.
    - intros c c' Hlook.
      rewrite (punctuation_table_entries c c' Hlook). discriminate.
    - unfold spaced. apply collapse_spaces_Forall.
      apply replace_char_gone. discriminate. }
  rewrite (lint_digit_free once Hfix Hdigits).
  unfold spaced.
  rewrite (replace_char_absent _ _ _ Hlines).
  rewrite (replace_char_absent _ _ _ Htabs).
  apply translate_fixed.
  apply collapse_spaces_Forall. exact Houtside.
Qed.

End Lint.

(** C3, as the code has it: on a text without ASCII digits (which the
    numeral expander leaves as it is), a second pass of [lint] collapses
    the runs of spaces of the first and does nothing else; so
    lint(lint(t)) = lint(t) exactly when lint(t) has no two adjacent
    spaces. *)
Theorem lint_twice `{Collaborators} (text : str) :
  fixes_digit_free normalize_numbers ->
  digit_free text ->
  Aligner.lint Aligner.__init__ (Aligner.lint Aligner.__init__ text)
  = Str.collapse_spaces (Aligner.lint Aligner.__init__ text)
  /\ (Aligner.lint Aligner.__init__ (Aligner.lint Aligner.__init__ text)
      = Aligner.lint Aligner.__init__ text
      <-> Str.contains_double_space (Aligner.lint Aligner.__init__ text)
          = false).
Proof.
  intros Hfix Hfree.
  pose proof (lint_lint text Hfix Hfree) as Htwice.
  split; [exact Htwice|]. rewrite Htwice. split.
  - intros Heq. rewrite <- Heq. apply collapse_spaces_exits.
  - apply collapse_spaces_fixed.
Qed.

Lemma lint_twice_witness :
  let lint := @Aligner.lint Fake.collaborators
                (@Aligner.__init__ Fake.collaborators) in
  lint (lint (u "a , b")) = Str.collapse_spaces (lint (u "a , b"))
  /\ (lint (lint (u "a , b")) = lint (u "a , b")
      <-> Str.contains_double_space (lint (u "a , b")) = false).
Proof.
  apply (@lint_twice Fake.collaborators (u "a , b")).
  - intros text _. reflexivity.
  - apply (bool_decide_unpack _). vm_compute. exact I.
Defined.

(** C3 fails as stated: whatever the numeral expander does with digits,
    [lint] is not idempotent. On "a , b" the comma is deleted after the
    whitespace has been collapsed, which leaves "a  b" with two spaces. *)
Lemma lint_not_idempotent :
  ~ exists C : Collaborators,
      let lint := @Aligner.lint C (@Aligner.__init__ C) in
      fixes_digit_free (@normalize_numbers C) /\
      forall text, lint (lint text) = lint text.
Proof.
  intros [C [Hfix Hidem]].
  specialize (Hidem (u "a , b")).
  assert (Hfree : digit_free (u "a , b")).
  { apply (bool_decide_unpack _). vm_compute. exact I. }
  rewrite (lint_lint _ Hfix Hfree) in Hidem.
  rewrite (lint_digit_free _ Hfix Hfree) in Hidem.
  vm_compute in Hidem. discriminate.
Qed.

End Normalizer.

(** ** The pronunciation builder *)

Section Builder.

(** *** Splitting the phonemes into words *)

Lemma split_step_phoneme (word : list str) (words : list (list str))
    (phoneme : str) :
  phoneme <> marker ->
  Aligner.split_step (word, words) phoneme = (word ++ [phoneme], words).
Proof.
  intros Hne. unfold Aligner.split_step.
  rewrite bool_decide_eq_false_2; [reflexivity|]. intros [? _]. congruence.
Qed.

Lemma split_step_boundary (word : list str) (words : list (list str)) :
  word <> [] ->
  Aligner.split_step (word, words) marker = ([], words ++ [word]).
Proof.
  intros Hne. unfold Aligner.split_step.
  rewrite bool_decide_eq_true_2; [reflexivity|]. split; [reflexivity|exact Hne].
Qed.


Lemma split_loop_phonemes (pronunciation : list str) :
  forall (word : list str) (words : list (list str)),
    Forall (fun ph => ph <> marker) pronunciation ->
    fold_left Aligner.split_step pronunciation (word, words)
    = (word ++ pronunciation, words).
Proof.
  induction pronunciation as [|ph rest IH]; intros word words Hall;
    cbn [fold_left].
  - rewrite app_nil_r. reflexivity.
  - inversion Hall as [|? ? Hph Hrest]; subst.
    rewrite (split_step_phoneme _ _ _ Hph), (IH _ _ Hrest), <- app_assoc.
    reflexivity.
Qed.

Lemma marked_cons (p q : list str) (rest : list (list str)) :
  marked (p :: q :: rest) = p ++ marker :: marked (q :: rest).
Proof. reflexivity. Qed.


(** From a word being read on: [pre] is what has been read of it. *)
Lemma split_loop_tail (after : list (list str)) :
  forall (p pre : list str) (words : list (list str)),
    voiced p ->
    Forall voiced after ->
    Aligner.split_final
      (fold_left Aligner.split_step (marked (p :: after)) (pre, words))
    = words ++ (pre ++ p) :: after.
Proof.
  induction after as [|a after IH]; intros p pre words [Hp Hphs] Hall.
  - cbn [marked Str.join]. rewrite (split_loop_phonemes _ _ _ Hphs).
    cbn [Aligner.split_final].
    destruct (pre ++ p) eqn:Hword; [|reflexivity].
    apply app_eq_nil in Hword as [_ ?]. congruence.
  - inversion Hall as [|? ? Ha Hafter]; subst.
    rewrite marked_cons, fold_left_app. cbn [fold_left].
    rewrite (split_loop_phonemes _ _ _ Hphs).
    cbn [fold_left]. rewrite split_step_boundary.
    2:{ intros Hword. apply app_eq_nil in Hword as [_ ?]. congruence. }
    rewrite (IH a [] _ Ha Hafter), <- app_assoc. reflexivity.
Qed.




(** *** Sorting the lines *)

Lemma leb_total (a : str) : forall b, Str.leb a b = false -> Str.leb b a = true.
Proof.
  induction a as [|x a IH]; intros [|y b]; simpl; try congruence.
  intros Hab. apply orb_false_iff in Hab as [Hlt Hrest].
  apply N.ltb_ge in Hlt.
  destruct (N.eqb_spec x y) as [->|Hne]; simpl in Hrest.
  - rewrite N.eqb_refl, (IH _ Hrest). apply orb_true_r.
  - assert (Hyx : (y <? x)%N = true) by (apply N.ltb_lt; lia).
    rewrite Hyx. reflexivity.
Qed.

Lemma insert_sorted_HdRel (a x : str) (lines : list str) :
  Str.leb a x = true ->
  HdRel (fun a b => Str.leb a b = true) a lines ->
  HdRel (fun a b => Str.leb a b = true) a (Str.insert_sorted x lines).
Proof.
  intros Hax Hhd. destruct lines as [|y lines]; simpl.
  - constructor. exact Hax.
  - destruct (Str.leb x y); constructor; [exact Hax|].
    inversion Hhd; assumption.
Qed.

Lemma insert_sorted_ordered (x : str) (lines : list str) :
  non_decreasing lines -> non_decreasing (Str.insert_sorted x lines).
Proof.
  unfold non_decreasing.
  induction 1 as [|y lines Hsorted IH Hhd]; simpl.
  - repeat constructor.
  - destruct (Str.leb x y) eqn:Hxy.
    + constructor; [constructor; assumption|]. constructor. exact Hxy.
    + constructor; [exact IH|].
      apply insert_sorted_HdRel; [|exact Hhd]. apply leb_total, Hxy.
Qed.

Lemma sorted_ordered (lines : list str) : non_decreasing (Str.sorted lines).
Proof.
  induction lines as [|x lines IH]; simpl.
  - constructor.
  - apply insert_sorted_ordered, IH.
Qed.

Lemma insert_sorted_perm (x : str) (lines : list str) :
  Str.insert_sorted x lines ≡ₚ x :: lines.
Proof.
  induction lines as [|y lines IH]; simpl; [reflexivity|].
  destruct (Str.leb x y); [reflexivity|].
  rewrite IH. apply Permutation_swap.
Qed.

Lemma sorted_perm (lines : list str) : Str.sorted lines ≡ₚ lines.
Proof.
  induction lines as [|x lines IH]; simpl; [reflexivity|].
  rewrite insert_sorted_perm, IH. reflexivity.
Qed.

Lemma occurrences_sorted (line : str) (lines : list str) :
  occurrences line (Str.sorted lines) = occurrences line lines.
Proof. unfold occurrences. rewrite (sorted_perm lines). reflexivity. Qed.

Lemma occurrences_absent (line : str) (lines : list str) :
  line ∉ lines -> occurrences line lines = 0%nat.
Proof.
  unfold occurrences. induction lines as [|l lines IH]; intros Hnot;
    [reflexivity|].
  rewrite filter_cons_False.
  - apply IH. intros Hin. apply Hnot. right. exact Hin.
  - intros ->. apply Hnot. left.
Qed.

(** *** The words of a text *)

Lemma split_from_words (P : N -> Prop) (text : str) :
  forall word : str,
    Forall P word -> Forall P text ->
    Forall (fun w => w <> [] /\ Forall P w) (Str.split_from word text).
Proof.
  induction text as [|c rest IH]; intros word Hword Htext; simpl.
  - destruct word; constructor; [|constructor]. split; [discriminate|exact Hword].
  - inversion Htext as [|? ? Hc Hrest]; subst.
    destruct (Str.is_whitespace c).
    + destruct word.
      * apply IH; [constructor|exact Hrest].
      * constructor; [split; [discriminate|exact Hword]|].
        apply IH; [constructor|exact Hrest].
    + apply IH; [|exact Hrest].
      apply Forall_app. split; [exact Hword|]. repeat constructor. exact Hc.
Qed.

Section Upper.
Context `{Collaborators}.
Hypothesis Hupper : upper_sound unicode_upper.

Lemma upper_char_capital (c : N) :
  Forall (fun x => ~ (97 <= x <= 122)%N) (Str.upper_char c).
Proof.
  unfold Str.upper_char. destruct (N.ltb_spec c 128) as [Hlt|Hge].
  - repeat constructor.
    destruct (N.leb_spec 97 c), (N.leb_spec c 122); simpl; lia.
  - apply Forall_forall. intros x Hx. exact (Hupper c x Hge Hx).
Qed.

Lemma upper_capital (text : str) :
  Forall (fun x => ~ (97 <= x <= 122)%N) (Str.upper text).
Proof.
  unfold Str.upper. induction text as [|c rest IH]; simpl; [constructor|].
  apply Forall_app. split; [apply upper_char_capital|exact IH].
Qed.

(** No entry of a word is the silence entry: a word starts with a
    character of the upper-cased text, the silence entry with "s". *)
Lemma word_line_not_silence (text : str) (segments : list (list str)) :
  silence_entry ∉
    map (fun '(w, p) => Aligner.dictionary_line w p)
        (zip (Str.split (Str.upper text)) segments).
Proof.
  pose proof (split_from_words _ (Str.upper text) [] (Forall_nil_2 _)
                (upper_capital text)) as Hwords.
  fold (Str.split (Str.upper text)) in Hwords.
  revert segments.
  induction Hwords as [|w words [Hne Hcap] _ IH]; intros segments;
    [rewrite zip_with_nil_l; apply not_elem_of_nil|].
  destruct segments as [|p segments]; simpl; [apply not_elem_of_nil|].
  apply not_elem_of_cons. split; [|apply IH].
  destruct w as [|c w]; [congruence|].
  inversion Hcap as [|? ? Hc _]; subst.
  unfold Aligner.dictionary_line, silence_entry. simpl.
  intros [= <- _]. lia.
Qed.

End Upper.

Lemma write_pronunciation_run `{Collaborators} (directory : string)
    (text : str) (w : World) :
  Aligner.write_pronunciation directory text w =
  (Return (directory // "dictionary"),
   write_data (directory // "dictionary")
     (TextFile
        (Str.sorted
           (map (fun '(w, p) => Aligner.dictionary_line w p)
                (zip (Str.split (Str.upper text))
                     (Aligner.split_phonemes (g2p text)))
            ++ [silence_entry]))) w).
Proof. reflexivity. Qed.

(** C9: the lines of the dictionary file are in non-decreasing
    lexicographic order and the silence entry "sp  sp" is among them
    exactly once; it is appended to the entries of the words before they
    are sorted. *)
Theorem write_pronunciation_sorted `{Collaborators} (directory : string)
    (text : str) (w : World) :
  upper_sound unicode_upper ->
  exists (entries lines : list str) (w' : World),
    Aligner.write_pronunciation directory text w
      = (Return (directory // "dictionary"), w') /\
    files w' !! (directory // "dictionary") = Some (TextFile lines) /\
    lines = Str.sorted (entries ++ [silence_entry]) /\
    non_decreasing lines /\
    occurrences silence_entry lines = 1%nat.
Proof.
  intros Hupper. rewrite write_pronunciation_run.
  eexists _, _, _. split; [reflexivity|].
  split; [apply lookup_insert_eq|].
  split; [reflexivity|].
  split; [apply sorted_ordered|].
  rewrite occurrences_sorted. unfold occurrences.
  rewrite filter_app, length_app.
  fold (occurrences silence_entry
          (map (fun '(w, p) => Aligner.dictionary_line w p)
             (zip (Str.split (Str.upper text))
                (Aligner.split_phonemes (g2p text))))).
  rewrite occurrences_absent; [reflexivity|].
  apply word_line_not_silence, Hupper.
Qed.

Lemma write_pronunciation_sorted_witness :
  exists (entries lines : list str) (w' : World),
    @Aligner.write_pronunciation Fake.collaborators "/tmp/tmp0" (u "a b")
      Fake.empty_world = (Return ("/tmp/tmp0" // "dictionary"), w') /\
    files w' !! ("/tmp/tmp0" // "dictionary") = Some (TextFile lines) /\
    lines = Str.sorted (entries ++ [silence_entry]) /\
    non_decreasing lines /\
    occurrences silence_entry lines = 1%nat.
Proof.
  apply (@write_pronunciation_sorted Fake.collaborators).
  intros c x Hc Hx. apply list_elem_of_singleton in Hx. subst x. lia.
Defined.




End Builder.


(** ** Subprocesses *)

Section Processes.
Context `{Collaborators}.

Lemma evolves_refl (p : Proc) : evolves p p.
Proof. unfold evolves. auto. Qed.

Lemma evolves_trans (p q r : Proc) : evolves p q -> evolves q r -> evolves p r.
Proof.
  intros (Ha & Hv & Hp & Hs) (Ha' & Hv' & Hp' & Hs').
  unfold evolves. repeat split; try congruence. auto.
Qed.

Lemma extends_refl (w : World) : extends w w.
Proof. intros pid p Hp. exists p. split; [exact Hp | apply evolves_refl]. Qed.

Lemma extends_trans (w1 w2 w3 : World) :
  extends w1 w2 -> extends w2 w3 -> extends w1 w3.
Proof.
  intros H12 H23 pid p Hp.
  destruct (H12 pid p Hp) as (q & Hq & Hpq).
  destruct (H23 pid q Hq) as (r & Hr & Hqr).
  exists r. split; [exact Hr | eapply evolves_trans; eassumption].
Qed.

Lemma extends_procs (w w' : World) : procs w' = procs w -> extends w w'.
Proof.
  intros Heq pid p Hp. exists p. rewrite Heq.
  split; [exact Hp | apply evolves_refl].
Qed.

(** *** A process that terminates *)

Lemma finish_length (pid : nat) (w : World) :
  length (procs (finish pid w)) = length (procs w).
Proof.
  unfold finish. destruct (procs w !! pid) as [p|]; [|reflexivity].
  destruct (status p); [|reflexivity].
  destruct (exec (argv p) (files w)). simpl. apply length_insert.
Qed.

Lemma finish_other (pid i : nat) (w : World) :
  pid <> i -> procs (finish pid w) !! i = procs w !! i.
Proof.
  intros Hne. unfold finish. destruct (procs w !! pid) as [p|]; [|reflexivity].
  destruct (status p); [|reflexivity].
  destruct (exec (argv p) (files w)). simpl.
  apply list_lookup_insert_ne. exact Hne.
Qed.

(** After [finish] the process has exited. *)
Lemma finish_exits (pid : nat) (w : World) (p : Proc) :
  procs w !! pid = Some p ->
  exists q code,
    procs (finish pid w) !! pid = Some q /\ evolves p q /\ status q = Exited code.
Proof.
  intros Hp. unfold finish. rewrite Hp.
  destruct (status p) as [|code] eqn:Hstatus.
  - destruct (exec (argv p) (files w)) as [code fs]. simpl.
    exists (set_status (Exited code) p), code.
    split; [|split; [|reflexivity]].
    + apply list_lookup_insert_eq. eapply lookup_lt_Some, Hp.
    + unfold evolves. simpl. repeat split. congruence.
  - exists p, code. split; [exact Hp|]. split; [apply evolves_refl|exact Hstatus].
Qed.

Lemma finish_extends (pid : nat) (w : World) : extends w (finish pid w).
Proof.
  intros i p Hp. destruct (decide (pid = i)) as [->|Hne].
  - destruct (finish_exits i w p Hp) as (q & _ & Hq & Hpq & _). eauto.
  - exists p. rewrite (finish_other _ _ _ Hne).
    split; [exact Hp | apply evolves_refl].
Qed.

Lemma finish_quiescent (pid : nat) (w : World) :
  quiescent w -> finish pid w = w.
Proof.
  intros Hq. unfold finish. destruct (procs w !! pid) as [p|] eqn:Hp;
    [|reflexivity].
  destruct (status p) eqn:Hstatus; [|reflexivity].
  unfold quiescent in Hq. rewrite Forall_lookup in Hq.
  destruct (Hq pid p Hp Hstatus).
Qed.

(** *** A step of the program *)

(** What holds when the clock has advanced and is kept by the processes
    that terminate holds after the step. *)
Lemma tick_ind (P : World -> Prop) (w : World) :
  P (mkWorld (files w) (procs w) (S (clock w)) (ntemp w)) ->
  (forall pid w', sched pid (clock w) = true -> P w' -> P (finish pid w')) ->
  P (tick w).
Proof.
  intros Hstart Hstep. unfold tick.
  generalize (seq 0 (length (procs
    (mkWorld (files w) (procs w) (S (clock w)) (ntemp w))))).
  revert Hstart.
  generalize (mkWorld (files w) (procs w) (S (clock w)) (ntemp w)).
  intros w0 Hw0 pids. revert w0 Hw0.
  induction pids as [|pid pids IH]; intros w0 Hw0; simpl; [exact Hw0|].
  apply IH. destruct (sched pid (clock w)) eqn:Hsched; [|exact Hw0].
  apply Hstep; assumption.
Qed.

Lemma tick_extends (w : World) : extends w (tick w).
Proof.
  apply tick_ind.
  - apply extends_procs. reflexivity.
  - intros pid w' _ Hw'. eapply extends_trans; [exact Hw'|apply finish_extends].
Qed.

Lemma tick_length (w : World) : length (procs (tick w)) = length (procs w).
Proof.
  apply tick_ind; [reflexivity|].
  intros pid w' _ Hw'. rewrite finish_length. exact Hw'.
Qed.


Lemma tick_quiescent (w : World) :
  quiescent w -> files (tick w) = files w /\ procs (tick w) = procs w.
Proof.
  intros Hq. apply tick_ind; [split; reflexivity|].
  intros pid w' _ [Hfiles Hprocs].
  rewrite finish_quiescent; [split; assumption|].
  unfold quiescent. rewrite Hprocs. exact Hq.
Qed.

Lemma write_data_extends (path : string) (data : FileData) (w : World) :
  extends w (write_data path data w).
Proof.
  eapply extends_trans; [apply tick_extends|].
  apply extends_procs. reflexivity.
Qed.

Lemma write_data_length (path : string) (data : FileData) (w : World) :
  length (procs (write_data path data w)) = length (procs w).
Proof. unfold write_data. cbn [procs set_files]. apply tick_length. Qed.

Lemma write_data_quiescent (path : string) (data : FileData) (w : World) :
  quiescent w ->
  quiescent (write_data path data w) /\
  files (write_data path data w) = <[path := data]> (files w).
Proof.
  intros Hq. destruct (tick_quiescent w Hq) as [Hfiles Hprocs].
  unfold quiescent, write_data. cbn [procs files set_files].
  rewrite Hprocs, Hfiles. split; [exact Hq|reflexivity].
Qed.

Lemma spawn_extends (args : list string) (w : World) :
  extends w (spawn args w).
Proof.
  eapply extends_trans; [apply tick_extends|].
  intros pid p Hp. exists p. split; [|apply evolves_refl].
  unfold spawn. simpl. apply lookup_app_l_Some. exact Hp.
Qed.

(** The child is the last process of the table and is running. *)
Lemma spawn_child (args : list string) (w : World) :
  procs (spawn args w) !! length (procs w)
  = Some (mkProc args Running (files (tick w)) (map status (procs (tick w)))).
Proof.
  unfold spawn. simpl. rewrite <- (tick_length w).
  apply list_lookup_middle. reflexivity.
Qed.


(** *** The feature extractor *)

Lemma format_run (s : Aligner.self) (directory : string) (a : audio)
    (script_file : string) (w : World) :
  Aligner.format s directory a script_file w =
  (Return tt,
   spawn ["HCopy"; "-T"; "1"; "-C"; Aligner.hcopy s; "-S";
          directory // "codetr.scp"]
     (write_data script_file
        (TextFile [u (directory // "tmp.plp") ++ [Str.NEWLINE]])
        (write_data (directory // "codetr.scp")
           (TextFile [u (directory // "sound.wav") ++ u " "
                      ++ u (directory // "tmp.plp") ++ [Str.NEWLINE]])
           (write_data (directory // "sound.wav") (Wav a SAMPLE_RATE) w)))).
Proof. reflexivity. Qed.




Lemma joinpath_inj (directory a b : string) :
  directory // a = directory // b -> a = b.
Proof.
  unfold joinpath. induction directory as [|c directory IH]; simpl.
  - intros Heq. injection Heq as Heq. exact Heq.
  - intros Heq. injection Heq as Heq. apply IH, Heq.
Qed.

(** In a world without running children, the feature extractor is handed
    the audio that [format] was given, labelled with the rate of P2FA. *)
Lemma format_view (s : Aligner.self) (directory : string) (a : audio)
    (w : World) :
  quiescent w ->
  exists hcopy : Proc,
    procs (Aligner.format s directory a (directory // "test.scp") w).2
      !! length (procs w) = Some hcopy /\
    head (argv hcopy) = Some "HCopy" /\
    view hcopy !! (directory // "sound.wav") = Some (Wav a SAMPLE_RATE).
Proof.
  intros Hq. rewrite format_run. cbn [snd].
  set (w1 := write_data (directory // "sound.wav") (Wav a SAMPLE_RATE) w).
  set (w2 := write_data (directory // "codetr.scp") _ w1).
  set (w3 := write_data (directory // "test.scp") _ w2).
  destruct (write_data_quiescent (directory // "sound.wav")
              (Wav a SAMPLE_RATE) w Hq) as [Hq1 Hf1].
  fold w1 in Hq1, Hf1.
  destruct (write_data_quiescent (directory // "codetr.scp")
              (TextFile [u (directory // "sound.wav") ++ u " "
                         ++ u (directory // "tmp.plp") ++ [Str.NEWLINE]])
              w1 Hq1) as [Hq2 Hf2].
  fold w2 in Hq2, Hf2.
  destruct (write_data_quiescent (directory // "test.scp")
              (TextFile [u (directory // "tmp.plp") ++ [Str.NEWLINE]])
              w2 Hq2) as [Hq3 Hf3].
  fold w3 in Hq3, Hf3.
  destruct (tick_quiescent w3 Hq3) as [Hfiles _].
  eexists. split.
  { replace (length (procs w)) with (length (procs w3)); [apply spawn_child|].
    unfold w3, w2, w1. rewrite !write_data_length. reflexivity. }
  split; [reflexivity|].
  - cbn [view]. rewrite Hfiles, Hf3, Hf2, Hf1.
    rewrite lookup_insert_ne.
    2:{ intros Heq. apply joinpath_inj in Heq. discriminate. }
    rewrite lookup_insert_ne.
    2:{ intros Heq. apply joinpath_inj in Heq. discriminate. }
    apply lookup_insert_eq.
Qed.

(** *** The decoder *)

Lemma viterbi_run (s : Aligner.self)
    (words dictionary directory script_file output : string) (w : World) :
  let args := ["HVite"; "-T"; "1"; "-a"; "-m"; "-I"; words;
               "-H"; Aligner.macros s; "-H"; Aligner.model s;
               "-S"; script_file; "-i"; output; "-p"; "0."; "-s"; "5.";
               dictionary; Aligner.monophones s] in
  let w1 := write_data (directory // "aligned.results") (TextFile []) w in
  Aligner.viterbi s words dictionary directory script_file output w =
  (Return tt, finish (length (procs (tick w1))) (tick (spawn args w1))).
Proof. reflexivity. Qed.

Lemma viterbi_extends (s : Aligner.self)
    (words dictionary directory script_file output : string) (w : World) :
  extends w
    (Aligner.viterbi s words dictionary directory script_file output w).2.
Proof.
  rewrite viterbi_run. cbn [snd].
  eapply extends_trans; [|apply finish_extends].
  eapply extends_trans; [|apply tick_extends].
  eapply extends_trans; [|apply spawn_extends].
  apply write_data_extends.
Qed.

(** When [viterbi] returns, the decoder that it has spawned has exited;
    [peers] is what the decoder saw of the other processes when it was
    spawned. *)
Lemma viterbi_waits (s : Aligner.self)
    (words dictionary directory script_file output : string) (w : World) :
  exists (hvite : Proc) (code : Z),
    procs (Aligner.viterbi s words dictionary directory script_file output w).2
      !! length (procs w) = Some hvite /\
    head (argv hvite) = Some "HVite" /\
    status hvite = Exited code /\
    peers hvite
    = map status
        (procs (tick (write_data (directory // "aligned.results")
                        (TextFile []) w))).
Proof.
  rewrite viterbi_run. cbn [snd].
  set (w1 := write_data _ _ w). set (args := "HVite" :: _).
  assert (Hlen : length (procs w1) = length (procs w)).
  { apply write_data_length. }
  pose proof (spawn_child args w1) as Hchild.
  destruct (tick_extends _ _ _ Hchild) as (q & Hq & Hevolves).
  rewrite tick_length, Hlen.
  rewrite Hlen in Hq.
  destruct (finish_exits _ _ _ Hq) as (r & code & Hr & Hevolves' & Hstatus).
  exists r, code. split; [exact Hr|].
  destruct (evolves_trans _ _ _ Hevolves Hevolves') as (Hargv & _ & Hpeers & _).
  rewrite Hargv, Hpeers. repeat split; assumption.
Qed.

(** *** The pipeline of one utterance *)


Lemma write_words_run (directory : string) (text : str) (w : World) :
  exists data : FileData,
    Aligner.write_words directory text w
    = (Return (directory // "tmp.mlf"),
       write_data (directory // "tmp.mlf") data w).
Proof. eexists. reflexivity. Qed.

Lemma correct_alignment_world (alignment_file : string) (duration : Q)
    (w : World) :
  (Aligner.correct_alignment alignment_file duration w).2 = w.
Proof.
  unfold Aligner.correct_alignment, bind, pypar.load.
  destruct (files w !! alignment_file) as [[| |phonemes|]|]; try reflexivity.
  destruct phonemes; reflexivity.
Qed.

Lemma bind_run {A B} (m : M A) (k : A -> M B) (w w' : World) (x : A) :
  m w = (Return x, w') -> bind m k w = k x w'.
Proof. intros Hrun. unfold bind. rewrite Hrun. reflexivity. Qed.

Lemma format_returns (s : Aligner.self) (directory : string) (a : audio)
    (script_file : string) (w : World) :
  Aligner.format s directory a script_file w
  = (Return tt, (Aligner.format s directory a script_file w).2).
Proof. rewrite format_run. reflexivity. Qed.

Lemma write_words_returns (directory : string) (text : str) (w : World) :
  Aligner.write_words directory text w
  = (Return (directory // "tmp.mlf"),
     (Aligner.write_words directory text w).2).
Proof.
  destruct (write_words_run directory text w) as [data ->]. reflexivity.
Qed.

Lemma write_pronunciation_returns (directory : string) (text : str)
    (w : World) :
  Aligner.write_pronunciation directory text w
  = (Return (directory // "dictionary"),
     (Aligner.write_pronunciation directory text w).2).
Proof. rewrite write_pronunciation_run. reflexivity. Qed.

Lemma viterbi_returns (s : Aligner.self)
    (words dictionary directory script_file output : string) (w : World) :
  Aligner.viterbi s words dictionary directory script_file output w
  = (Return tt,
     (Aligner.viterbi s words dictionary directory script_file output w).2).
Proof. rewrite viterbi_run. reflexivity. Qed.

Lemma rmtree_procs (directory : string) (w : World) :
  procs (rmtree directory w) = procs w.
Proof. reflexivity. Qed.

(** The stages of [__call__] and the worlds between them. *)
Lemma call_run (s : Aligner.self) (text : str) (a : audio) (duration : Q)
    (w : World) :
  let directory := "/tmp/tmp" +:+ pretty (ntemp w) in
  let w0 := mkWorld (files w) (procs w) (clock w) (N.succ (ntemp w)) in
  let w1 := (Aligner.format s directory a (directory // "test.scp") w0).2 in
  let w2 := (Aligner.write_words directory (Aligner.lint s text) w1).2 in
  let w3 := (Aligner.write_pronunciation directory (Aligner.lint s text) w2).2 in
  let w4 := (Aligner.viterbi s (directory // "tmp.mlf")
               (directory // "dictionary") directory (directory // "test.scp")
               (directory // "alignment.mlf") w3).2 in
  Aligner.__call__ s text a duration w
  = ((Aligner.correct_alignment (directory // "alignment.mlf") duration w4).1,
     rmtree directory w4).
Proof.
  intros directory w0 w1 w2 w3 w4.
  pose proof (correct_alignment_world (directory // "alignment.mlf")
                duration w4) as Hworld.
  unfold Aligner.__call__, TemporaryDirectory, finally.
  fold directory. fold w0. cbv zeta.
  rewrite (bind_run _ _ w0 w1 tt (format_returns _ _ _ _ _)).
  rewrite (bind_run _ _ w1 w2 _ (write_words_returns _ _ _)).
  rewrite (bind_run _ _ w2 w3 _ (write_pronunciation_returns _ _ _)).
  rewrite (bind_run _ _ w3 w4 tt (viterbi_returns _ _ _ _ _ _ _)).
  destruct (Aligner.correct_alignment _ _ w4) as [r w5].
  cbn [fst snd] in *. rewrite Hworld. reflexivity.
Qed.

Lemma align_run (text : str) (a : audio) (sample_rate : Z) (w : World) :
  sample_rate <> 0%Z ->
  align text a sample_rate w
  = Aligner.__call__ Aligner.__init__ text a
      (inject_Z (Z.of_nat (length a)) / inject_Z sample_rate) w.
Proof.
  intros Hrate. unfold align.
  destruct (decide (sample_rate = 0%Z)) as [?|_]; [congruence|].
  destruct (decide (sample_rate <> SAMPLE_RATE)); reflexivity.
Qed.

(** C5, as the code has it: [viterbi] blocks until the decoder that it has
    spawned has terminated, and then returns normally whatever the exit
    code is: the code that [wait] returns is dropped, a decoder failure
    raises nothing in [viterbi]. *)
Theorem viterbi_drops_exit_code (s : Aligner.self)
    (words dictionary directory script_file output : string) (w : World) :
  exists (w' : World) (hvite : Proc) (code : Z),
    Aligner.viterbi s words dictionary directory script_file output w
      = (Return tt, w') /\
    procs w' !! length (procs w) = Some hvite /\
    head (argv hvite) = Some "HVite" /\
    status hvite = Exited code.
Proof.
  destruct (viterbi_waits s words dictionary directory script_file output w)
    as (hvite & code & Hlookup & Hargv & Hstatus & _).
  exists (Aligner.viterbi s words dictionary directory script_file output w).2,
         hvite, code.
  split; [reflexivity|]. auto.
Qed.





(** C4, the behaviour of the code: whatever the sampling rate of the
    input and whatever the resampler returns, the audio that [align] has
    written for the feature extractor and the decoder is the input audio
    itself, labelled with the rate of P2FA; the resampled audio is
    dropped. *)
Theorem align_writes_input_audio (text : str) (a : audio) (sample_rate : Z)
    (w : World) :
  sample_rate <> 0%Z ->
  quiescent w ->
  exists (r : result pypar.Alignment) (w' : World) (hcopy : Proc),
    align text a sample_rate w = (r, w') /\
    procs w' !! length (procs w) = Some hcopy /\
    head (argv hcopy) = Some "HCopy" /\
    view hcopy !! (("/tmp/tmp" +:+ pretty (ntemp w)) // "sound.wav")
    = Some (Wav a SAMPLE_RATE).
Proof.
  intros Hrate Hq. rewrite (align_run _ _ _ _ Hrate).
  pose proof (call_run Aligner.__init__ text a
                (inject_Z (Z.of_nat (length a)) / inject_Z sample_rate) w)
    as Hrun.
  cbv zeta in Hrun.
  remember ("/tmp/tmp" +:+ pretty (ntemp w)) as directory eqn:Hdir.
  remember (mkWorld (files w) (procs w) (clock w) (N.succ (ntemp w)))
    as w0 eqn:Hw0.
  assert (Hprocs : procs w0 = procs w) by (rewrite Hw0; reflexivity).
  assert (Hq0 : quiescent w0) by (unfold quiescent; rewrite Hprocs; exact Hq).
  destruct (format_view Aligner.__init__ directory a w0 Hq0)
    as (hcopy & Hhcopy & Hargv & Hview).
  rewrite Hprocs in Hhcopy.
  remember (Aligner.format Aligner.__init__ directory a
              (directory // "test.scp") w0).2 as w1 eqn:Hw1.
  remember (Aligner.lint Aligner.__init__ text) as text' eqn:Htext.
  assert (Hext : extends w1
            (Aligner.viterbi Aligner.__init__ (directory // "tmp.mlf")
               (directory // "dictionary") directory (directory // "test.scp")
               (directory // "alignment.mlf")
               (Aligner.write_pronunciation directory text'
                  (Aligner.write_words directory text' w1).2).2).2).
  { eapply extends_trans; [|apply viterbi_extends].
    eapply extends_trans;
      [|rewrite write_pronunciation_run; apply write_data_extends].
    destruct (write_words_run directory text' w1) as [data ->].
    apply write_data_extends. }
  destruct (Hext _ _ Hhcopy) as (hcopy' & Hhcopy' & Hsame & Hsame' & _).
  eexists _, _, hcopy'. split; [exact Hrun|].
  rewrite rmtree_procs.
  split; [exact Hhcopy'|]. split; [rewrite Hsame; exact Hargv|].
  rewrite Hsame'. exact Hview.
Qed.

End Processes.


(** ** Witnesses and failing runs of the pipeline *)

Section Runs.

Lemma viterbi_drops_exit_code_run :
  exists (w' : World) (hvite : Proc),
    @Aligner.viterbi Fake.failing (@Aligner.__init__ Fake.failing)
      "/tmp/tmp0/tmp.mlf" "/tmp/tmp0/dictionary" "/tmp/tmp0"
      "/tmp/tmp0/test.scp" "/tmp/tmp0/alignment.mlf" Fake.empty_world
    = (Return tt, w') /\
    procs w' !! 1%nat = None /\
    procs w' !! 0%nat = Some hvite /\
    head (argv hvite) = Some "HVite" /\
    status hvite = Exited 1.
Proof.
  eexists _, _. split; [vm_compute; reflexivity|].
  split; [vm_compute; reflexivity|]. split; [vm_compute; reflexivity|].
  split; vm_compute; reflexivity.
Qed.


Lemma align_writes_input_audio_witness :
  exists (r : result pypar.Alignment) (w' : World) (hcopy : Proc),
    @align Fake.collaborators (u "a b") [1; 2; 3; 4] 22050 Fake.empty_world
      = (r, w') /\
    procs w' !! length (procs Fake.empty_world) = Some hcopy /\
    head (argv hcopy) = Some "HCopy" /\
    view hcopy !! (("/tmp/tmp" +:+ pretty (ntemp Fake.empty_world)) // "sound.wav")
    = Some (Wav [1; 2; 3; 4] SAMPLE_RATE).
Proof.
  apply (@align_writes_input_audio Fake.collaborators (u "a b") [1; 2; 3; 4]
           22050 Fake.empty_world).
  - discriminate.
  - constructor.
Defined.

(** The run of C4's failing input: four samples at 22050 Hz. The
    resampler would return two samples; the file that the feature
    extractor is handed holds the four samples of the input. *)
Lemma align_drops_resampled_audio :
  exists (r : result pypar.Alignment) (w' : World) (hcopy : Proc),
    @align Fake.collaborators (u "a b") [1; 2; 3; 4] 22050 Fake.empty_world
      = (r, w') /\
    procs w' !! 0%nat = Some hcopy /\
    head (argv hcopy) = Some "HCopy" /\
    view hcopy !! "/tmp/tmp0/sound.wav" = Some (Wav [1; 2; 3; 4] 11025) /\
    @resample Fake.collaborators [1; 2; 3; 4] 22050 SAMPLE_RATE = [1; 3].
Proof.
  eexists _, _, _. split; [vm_compute; reflexivity|].
  split; [vm_compute; reflexivity|]. split; [vm_compute; reflexivity|].
  split; vm_compute; reflexivity.
Qed.

End Runs.


(** ** The batch driver *)

Section Batch.
Context `{Collaborators}.




End Batch.


(** ** More on the alignment corrector *)

Section CorrectorShape.







End CorrectorShape.


(** ** More on the text normaliser *)

Section NormalizerWords.
Context `{Collaborators}.

(** X3: whatever the numeral expander returns, the text that [lint]
    returns holds no character of [string.punctuation] (the hyphen
    included) and none of the three typographic marks. *)
Theorem lint_strips (text : str) (c : N) :
  c ∈ Aligner.lint Aligner.__init__ text -> c ∉ strip_set.
Proof.
  intros Hc Hstrip.
  assert (Houtside : Forall (fun c => table !! c = None)
                       (Aligner.lint Aligner.__init__ text)).
  { unfold Aligner.lint. apply translate_outside. intros a a' Hlook.
    rewrite (punctuation_table_entries a a' Hlook).
    exact punctuation_table_space. }
  rewrite Forall_forall in Houtside. specialize (Houtside c Hc).
  assert (Hinside : Forall (fun c => is_Some (table !! c)) strip_set).
  { apply (bool_decide_unpack _). vm_compute. exact I. }
  rewrite Forall_forall in Hinside. specialize (Hinside c Hstrip).
  rewrite Houtside in Hinside. destruct Hinside as [? ?]. discriminate.
Qed.

(** What follows a common prefix decides the words alike. *)
Lemma split_from_ext (l x y : str) :
  (forall word, Str.split_from word x = Str.split_from word y) ->
  forall word, Str.split_from word (l ++ x) = Str.split_from word (l ++ y).
Proof.
  intros Hxy. induction l as [|c l IH]; intros word; cbn [app]; [apply Hxy|].
  cbn [Str.split_from]. destruct (Str.is_whitespace c); [|apply IH].
  destruct word; rewrite IH; reflexivity.
Qed.

(** An iteration of the loop of [lint] keeps the words. *)
Lemma replace_double_space_words (text : str) :
  forall word,
    Str.split_from word (Str.upper (Str.replace_double_space text))
    = Str.split_from word (Str.upper text).
Proof.
  induction text as [|c|c c' rest IH1 IH2] using window_ind; intros word;
    try reflexivity.
  cbn [Str.replace_double_space].
  destruct (N.eqb c Str.SPACE && N.eqb c' Str.SPACE) eqn:Hsp.
  - apply andb_true_iff in Hsp as [Hc Hc'].
    apply N.eqb_eq in Hc, Hc'. subst c c'.
    change (Str.upper (Str.SPACE :: Str.replace_double_space rest))
      with (Str.SPACE :: Str.upper (Str.replace_double_space rest)).
    change (Str.upper (Str.SPACE :: Str.SPACE :: rest))
      with (Str.SPACE :: Str.SPACE :: Str.upper rest).
    cbn [Str.split_from]. change (Str.is_whitespace Str.SPACE) with true.
    cbv iota. destruct word; rewrite IH1; reflexivity.
  - change (Str.upper (c :: Str.replace_double_space (c' :: rest)))
      with (Str.upper_char c ++ Str.upper (Str.replace_double_space (c' :: rest))).
    change (Str.upper (c :: c' :: rest))
      with (Str.upper_char c ++ Str.upper (c' :: rest)).
    apply split_from_ext. exact IH2.
Qed.

Lemma collapse_loop_words (fuel : nat) :
  forall text word,
    Str.split_from word (Str.upper (Str.collapse_loop fuel text))
    = Str.split_from word (Str.upper text).
Proof.
  induction fuel as [|fuel IH]; intros text word; cbn [Str.collapse_loop];
    [reflexivity|].
  destruct (Str.contains_double_space text); [|reflexivity].
  rewrite IH. apply replace_double_space_words.
Qed.

(** X4: [lint] is not idempotent, but a second pass changes no word: on a
    text without ASCII digits, the words that [write_words] and
    [write_pronunciation] read from lint(lint(t)) are the words that they
    read from lint(t). *)
Theorem lint_twice_words (text : str) :
  fixes_digit_free normalize_numbers ->
  digit_free text ->
  Str.split (Str.upper (Aligner.lint Aligner.__init__
                          (Aligner.lint Aligner.__init__ text)))
  = Str.split (Str.upper (Aligner.lint Aligner.__init__ text)).
Proof.
  intros Hfix Hfree. rewrite (lint_lint text Hfix Hfree).
  unfold Str.split, Str.collapse_spaces. apply collapse_loop_words.
Qed.

End NormalizerWords.

Lemma lint_strips_witness :
  97%N ∈ @Aligner.lint Fake.collaborators (@Aligner.__init__ Fake.collaborators)
           (u "a-b")
  /\ 97%N ∉ strip_set.
Proof.
  assert (Hin : 97%N ∈ @Aligner.lint Fake.collaborators
                         (@Aligner.__init__ Fake.collaborators) (u "a-b")).
  { apply (bool_decide_unpack _). vm_compute. exact I. }
  split; [exact Hin|].
  exact (@lint_strips Fake.collaborators (u "a-b") 97%N Hin).
Defined.

Lemma lint_twice_words_witness :
  let lint := @Aligner.lint Fake.collaborators
                (@Aligner.__init__ Fake.collaborators) in
  Str.split (@Str.upper Fake.collaborators (lint (lint (u "a , b"))))
  = Str.split (@Str.upper Fake.collaborators (lint (u "a , b"))).
Proof.
  apply (@lint_twice_words Fake.collaborators (u "a , b")).
  - intros text _. reflexivity.
  - apply (bool_decide_unpack _). vm_compute. exact I.
Defined.

(** ** Grapheme-to-phoneme conversion *)

Section Conversion.
Context `{Collaborators}.
Variable isdigit : N -> bool.
Variable phonemes_to_indices : list str -> list Z.

(** X5: [from_text] hands the G2P engine the text that the aligner hands
    it: the two copies of the normalisation agree, with the table of the
    aligner built once and the one of [from_text] at each call. *)
Theorem from_text_lint (text : str) :
  G2P.normalized text = Aligner.lint Aligner.__init__ text.
Proof. reflexivity. Qed.

Lemma silenced_marker_free (phonemes : list str) :
  [Str.SPACE]
  ∉ map (fun phoneme =>
           if decide (phoneme = [Str.SPACE]) then G2P.SILENT else phoneme)
        phonemes.
Proof.
  induction phonemes as [|ph rest IH]; cbn [map]; [apply not_elem_of_nil|].
  apply not_elem_of_cons. split; [|exact IH].
  destruct (decide (ph = [Str.SPACE])); [discriminate|congruence].
Qed.

(** X6: [from_text] raises IndexError exactly when the G2P engine returns
    no phoneme. Otherwise the phonemes that it converts to indices start
    and end with the silent token, which is added where the engine gave
    none, and hold no word marker: every marker has become a silent
    token. *)
Theorem from_text_silences (text : str) :
  (G2P.from_text isdigit phonemes_to_indices text = Raise IndexError
   <-> g2p (G2P.normalized text) = []) /\
  (g2p (G2P.normalized text) <> [] ->
   exists phonemes : list str,
     G2P.from_text isdigit phonemes_to_indices text
       = Return (phonemes_to_indices phonemes) /\
     head phonemes = Some G2P.SILENT /\
     last phonemes = Some G2P.SILENT /\
     ([Str.SPACE] ∉ phonemes) /\
     (length (g2p (G2P.normalized text)) <= length phonemes
      <= length (g2p (G2P.normalized text)) + 2)%nat).
Proof.
  unfold G2P.from_text, G2P.silenced.
  set (cleaned := map _ (map _ (g2p (G2P.normalized text)))).
  assert (Hfree : [Str.SPACE] ∉ cleaned) by apply silenced_marker_free.
  assert (Hlen : length cleaned = length (g2p (G2P.normalized text))).
  { unfold cleaned. rewrite !length_map. reflexivity. }
  destruct cleaned as [|first rest] eqn:Hcleaned.
  - destruct (g2p (G2P.normalized text)); [|discriminate].
    split; [split; reflexivity|]. congruence.
  - split.
    { split; [discriminate|]. intros Hnil. rewrite Hnil in Hlen. discriminate. }
    intros _.
    set (opened := if decide (first <> G2P.SILENT)
                   then G2P.SILENT :: first :: rest else first :: rest).
    assert (Hhead : head opened = Some G2P.SILENT).
    { unfold opened. destruct (decide (first <> G2P.SILENT)) as [|Heq];
        [reflexivity|].
      apply dec_stable in Heq. rewrite Heq. reflexivity. }
    assert (Hfree' : [Str.SPACE] ∉ opened).
    { unfold opened. destruct (decide (first <> G2P.SILENT)); [|exact Hfree].
      apply not_elem_of_cons. split; [discriminate|exact Hfree]. }
    assert (Hlen' : (length (first :: rest) <= length opened
                     <= length (first :: rest) + 1)%nat).
    { unfold opened. destruct (decide (first <> G2P.SILENT)); cbn [length]; lia. }
    destruct (decide (last opened <> Some G2P.SILENT)) as [Hlast|Hlast].
    + exists (opened ++ [G2P.SILENT]). split; [reflexivity|].
      split.
      { destruct opened; [discriminate|exact Hhead]. }
      split; [apply last_snoc|].
      split.
      { rewrite elem_of_app, list_elem_of_singleton.
        intros [?|?]; [contradiction|discriminate]. }
      rewrite length_app. cbn [length]. lia.
    + apply dec_stable in Hlast.
      exists opened. split; [reflexivity|].
      split; [exact Hhead|]. split; [exact Hlast|]. split; [exact Hfree'|].
      lia.
Qed.

End Conversion.

Lemma from_text_silences_witness :
  (@G2P.from_text Fake.collaborators is_digit Fake.indices (u "a b")
   = Raise IndexError
   <-> @g2p Fake.collaborators (@G2P.normalized Fake.collaborators (u "a b"))
       = []) /\
  (@g2p Fake.collaborators (@G2P.normalized Fake.collaborators (u "a b")) <> [] ->
   exists phonemes : list str,
     @G2P.from_text Fake.collaborators is_digit Fake.indices (u "a b")
       = Return (Fake.indices phonemes) /\
     head phonemes = Some G2P.SILENT /\
     last phonemes = Some G2P.SILENT /\
     ([Str.SPACE] ∉ phonemes) /\
     (length (@g2p Fake.collaborators
                (@G2P.normalized Fake.collaborators (u "a b")))
      <= length phonemes
      <= length (@g2p Fake.collaborators
                   (@G2P.normalized Fake.collaborators (u "a b"))) + 2)%nat).
Proof.
  apply (@from_text_silences Fake.collaborators is_digit Fake.indices (u "a b")).
Defined.


(** ** More on the pronunciation builder *)

Section BuilderShape.

(** X7: splitting undoes the marking of the G2P engine: when every word
    has phonemes, [split_phonemes] returns the pronunciations of the
    words, one segment for each word, in order. *)
Theorem split_phonemes_marked (pronunciations : list (list str)) :
  Forall voiced pronunciations ->
  Aligner.split_phonemes (marked pronunciations) = pronunciations.
Proof.
  intros Hall. destruct pronunciations as [|p after]; [reflexivity|].
  inversion Hall as [|? ? Hp Hafter]; subst.
  unfold Aligner.split_phonemes.
  rewrite (split_loop_tail after p [] [] Hp Hafter). reflexivity.
Qed.

Lemma split_phonemes_marked_witness :
  Aligner.split_phonemes (marked [[u "HH"; u "AY1"]; [u "DH"; u "EH1"; u "R"]])
  = [[u "HH"; u "AY1"]; [u "DH"; u "EH1"; u "R"]].
Proof.
  apply (split_phonemes_marked [[u "HH"; u "AY1"]; [u "DH"; u "EH1"; u "R"]]).
  repeat constructor; discriminate.
Defined.

Lemma split_step_keeps (state : list str * list (list str)) (phoneme : str) :
  filter (fun ph => ph <> marker)
         (concat (Aligner.split_step state phoneme).2
          ++ (Aligner.split_step state phoneme).1)
  = filter (fun ph => ph <> marker) ((concat state.2 ++ state.1) ++ [phoneme]).
Proof.
  destruct state as [word words]. unfold Aligner.split_step.
  case_bool_decide as Hcase; cbn [fst snd].
  - destruct Hcase as [-> _].
    rewrite concat_app. cbn [concat]. rewrite !app_nil_r.
    rewrite (filter_app _ (concat words ++ word)).
    rewrite filter_cons_False by (intros Hne; apply Hne; reflexivity).
    rewrite filter_nil, app_nil_r. reflexivity.
  - rewrite app_assoc. reflexivity.
Qed.

Lemma split_loop_keeps (phonemes : list str) :
  forall state : list str * list (list str),
    filter (fun ph => ph <> marker)
           (concat (fold_left Aligner.split_step phonemes state).2
            ++ (fold_left Aligner.split_step phonemes state).1)
    = filter (fun ph => ph <> marker)
             ((concat state.2 ++ state.1) ++ phonemes).
Proof.
  induction phonemes as [|ph rest IH]; intros state; cbn [fold_left].
  - rewrite app_nil_r. reflexivity.
  - rewrite IH. rewrite !(filter_app _ _ rest). rewrite split_step_keeps.
    rewrite (filter_app _ _ [ph]), (filter_app _ _ (ph :: rest)).
    rewrite <- app_assoc. f_equal.
    rewrite <- (filter_app _ [ph] rest). reflexivity.
Qed.

(** X8: [split_phonemes] loses no phoneme and keeps the order: but for
    word markers, the segments put end to end are the phonemes of the
    engine. *)
Theorem split_phonemes_keeps (phonemes : list str) :
  filter (fun ph => ph <> marker) (concat (Aligner.split_phonemes phonemes))
  = filter (fun ph => ph <> marker) phonemes.
Proof.
  unfold Aligner.split_phonemes.
  pose proof (split_loop_keeps phonemes ([], [])) as Hkeeps.
  cbn [fst snd concat app] in Hkeeps. rewrite <- Hkeeps.
  destruct (fold_left Aligner.split_step phonemes ([], [])) as [word words].
  cbn [fst snd Aligner.split_final]. destruct word as [|ph word].
  - rewrite app_nil_r. reflexivity.
  - rewrite concat_app. cbn [concat]. rewrite app_nil_r. reflexivity.
Qed.

End BuilderShape.

Section BuilderFiles.
Context `{Collaborators}.

(** X9: when the engine has phonemes for every word, the dictionary is
    the sorted list of one entry for each word of the text, paired with
    its own pronunciation, and the silence entry. *)
Theorem write_pronunciation_known (directory : string) (text : str)
    (w : World) (pronunciations : list (list str)) :
  Forall voiced pronunciations ->
  g2p text = marked pronunciations ->
  length pronunciations = length (Str.split (Str.upper text)) ->
  exists (lines : list str) (w' : World),
    Aligner.write_pronunciation directory text w
      = (Return (directory // "dictionary"), w') /\
    files w' !! (directory // "dictionary") = Some (TextFile lines) /\
    lines
    = Str.sorted
        (zip_with Aligner.dictionary_line (Str.split (Str.upper text))
                  pronunciations
         ++ [silence_entry]) /\
    length lines = S (length (Str.split (Str.upper text))).
Proof.
  intros Hall Hg2p Hlen. rewrite write_pronunciation_run.
  assert (Hsplit : Aligner.split_phonemes (marked pronunciations)
                   = pronunciations).
  { destruct pronunciations as [|p after]; [reflexivity|].
    inversion Hall as [|? ? Hp Hafter]; subst.
    unfold Aligner.split_phonemes.
    rewrite (split_loop_tail after p [] [] Hp Hafter). reflexivity. }
  rewrite Hg2p, Hsplit.
  eexists _, _. split; [reflexivity|].
  split; [apply lookup_insert_eq|].
  assert (Hzip : map (fun '(w, p) => Aligner.dictionary_line w p)
                     (zip (Str.split (Str.upper text)) pronunciations)
                 = zip_with Aligner.dictionary_line
                     (Str.split (Str.upper text)) pronunciations).
  { generalize (Str.split (Str.upper text)). clear.
    induction pronunciations as [|p ps IH]; intros [|x xs]; cbn; try reflexivity.
    rewrite IH. reflexivity. }
  rewrite Hzip. split; [reflexivity|].
  rewrite (Permutation_length (sorted_perm _)).
  rewrite length_app, length_zip_with. cbn [length]. lia.
Qed.

Lemma flat_map_pairs_lookup {A B} (a : B) (f : A -> B) (l : list A) (i : nat)
    (x : A) :
  l !! i = Some x ->
  flat_map (fun y => [a; f y]) l !! (2 * i)%nat = Some a /\
  flat_map (fun y => [a; f y]) l !! (2 * i + 1)%nat = Some (f x).
Proof.
  revert i. induction l as [|y l IH]; intros [|i] Hx; try discriminate.
  - injection Hx as ->. split; reflexivity.
  - replace (2 * S i)%nat with (S (S (2 * i))) by lia.
    replace (S (S (2 * i)) + 1)%nat with (S (S (2 * i + 1))) by lia.
    cbn [flat_map app]. exact (IH i Hx).
Qed.

Lemma flat_map_pairs_length {A B} (a : B) (f : A -> B) (l : list A) :
  length (flat_map (fun y => [a; f y]) l) = (2 * length l)%nat.
Proof. induction l as [|y l IH]; cbn [flat_map app length]; lia. Qed.

(** X10: the word file is the two header lines, then for each word of
    the text, in order, a silence line and the line of the word, and a
    last silence line: every word stands between two silences. *)
Theorem write_words_layout (directory : string) (text : str) (w : World) :
  exists (lines : list str) (w' : World),
    Aligner.write_words directory text w
      = (Return (directory // "tmp.mlf"), w') /\
    files w' !! (directory // "tmp.mlf") = Some (TextFile lines) /\
    length lines = (2 * length (Str.split (Str.upper text)) + 3)%nat /\
    (forall i word,
       Str.split (Str.upper text) !! i = Some word ->
       lines !! (2 * i + 2)%nat = Some (u "sp" ++ [Str.NEWLINE]) /\
       lines !! (2 * i + 3)%nat = Some (word ++ [Str.NEWLINE]) /\
       lines !! (2 * i + 4)%nat = Some (u "sp" ++ [Str.NEWLINE])).
Proof.
  unfold Aligner.write_words, bind, open_write, ret.
  eexists _, _. split; [reflexivity|].
  split; [apply lookup_insert_eq|].
  set (words := Str.split (Str.upper text)).
  set (body := flat_map (fun word => [u "sp" ++ [Str.NEWLINE];
                                      word ++ [Str.NEWLINE]]) words).
  assert (Hbody : length body = (2 * length words)%nat)
    by apply flat_map_pairs_length.
  split.
  { cbn [app length]. rewrite length_app, Hbody. cbn [length]. lia. }
  intros i word Hword.
  destruct (flat_map_pairs_lookup (u "sp" ++ [Str.NEWLINE])
              (fun word => word ++ [Str.NEWLINE]) words i word Hword)
    as [Hsp Hline].
  fold body in Hsp, Hline.
  replace (2 * i + 2)%nat with (S (S (2 * i))) by lia.
  replace (2 * i + 3)%nat with (S (S (2 * i + 1))) by lia.
  replace (2 * i + 4)%nat with (S (S (2 * i + 2))) by lia.
  cbn [app lookup list_lookup].
  change (list_lookup ?n ?l) with (l !! n).
  split; [apply lookup_app_l_Some, Hsp|].
  split; [apply lookup_app_l_Some, Hline|].
  destruct (decide (S i < length words)%nat) as [Hnext|Hlast].
  - destruct (lookup_lt_is_Some_2 words (S i) Hnext) as [next Hnext'].
    destruct (flat_map_pairs_lookup (u "sp" ++ [Str.NEWLINE])
                (fun word => word ++ [Str.NEWLINE]) words (S i) next Hnext')
      as [Hsp' _].
    fold body in Hsp'. replace (2 * S i)%nat with (2 * i + 2)%nat in Hsp' by lia.
    apply lookup_app_l_Some, Hsp'.
  - apply lookup_lt_Some in Hword.
    etransitivity; [apply lookup_app_r; lia|].
    replace (2 * i + 2 - length body)%nat with 0%nat by lia. reflexivity.
Qed.

End BuilderFiles.

Lemma write_pronunciation_known_witness :
  exists (lines : list str) (w' : World),
    @Aligner.write_pronunciation Fake.collaborators "/tmp/tmp0" (u "a b")
      Fake.empty_world = (Return ("/tmp/tmp0" // "dictionary"), w') /\
    files w' !! ("/tmp/tmp0" // "dictionary") = Some (TextFile lines) /\
    lines
    = Str.sorted
        (zip_with Aligner.dictionary_line
                  (Str.split (@Str.upper Fake.collaborators (u "a b")))
                  [[u "a"]; [u "b"]]
         ++ [silence_entry]) /\
    length lines
    = S (length (Str.split (@Str.upper Fake.collaborators (u "a b")))).
Proof.
  apply (@write_pronunciation_known Fake.collaborators "/tmp/tmp0" (u "a b")
           Fake.empty_world [[u "a"]; [u "b"]]).
  - repeat constructor; discriminate.
  - reflexivity.
  - reflexivity.
Defined.

(** ** More on the pipeline of one utterance *)

Section PipelineShape.
Context `{Collaborators}.

Lemma prefix_joinpath (directory name : string) :
  String.prefix (directory +:+ "/") (directory // name) = true.
Proof.
  unfold joinpath. induction directory as [|c directory IH].
  - destruct name; reflexivity.
  - change (String.prefix (String c (directory +:+ "/"))
              (String c (directory +:+ "/" +:+ name)) = true).
    cbn [String.prefix].
    destruct (Ascii.ascii_dec c c); [exact IH|congruence].
Qed.

Lemma rmtree_removes (directory name : string) (w : World) :
  files (rmtree directory w) !! (directory // name) = None.
Proof.
  unfold rmtree. cbn [files set_files].
  apply map_lookup_filter_None_2. right. intros data _. cbn.
  rewrite prefix_joinpath. discriminate.
Qed.

(** X11: when [__call__] is left, with an alignment or with an exception,
    no file of its temporary directory is left. *)
Theorem call_cleans_workspace (s : Aligner.self) (text : str) (a : audio)
    (duration : Q) (w : World) (name : string) :
  files (Aligner.__call__ s text a duration w).2
    !! (("/tmp/tmp" +:+ pretty (ntemp w)) // name) = None.
Proof.
  rewrite call_run. cbv zeta. cbn [snd]. apply rmtree_removes.
Qed.







(** X14: in a world without running children, [format] writes the audio,
    the conversion script and the feature script, and leaves every other
    file as it is. *)
Theorem format_writes_three (s : Aligner.self) (directory : string)
    (a : audio) (script_file : string) (w : World) :
  quiescent w ->
  files (Aligner.format s directory a script_file w).2
  = <[script_file := TextFile [u (directory // "tmp.plp") ++ [Str.NEWLINE]]]>
      (<[directory // "codetr.scp" :=
           TextFile [u (directory // "sound.wav") ++ u " "
                     ++ u (directory // "tmp.plp") ++ [Str.NEWLINE]]]>
         (<[directory // "sound.wav" := Wav a SAMPLE_RATE]> (files w))).
Proof.
  intros Hq. rewrite format_run. cbn [snd].
  destruct (write_data_quiescent (directory // "sound.wav")
              (Wav a SAMPLE_RATE) w Hq) as [Hq1 Hf1].
  remember (write_data (directory // "sound.wav") (Wav a SAMPLE_RATE) w) as w1.
  destruct (write_data_quiescent (directory // "codetr.scp")
              (TextFile [u (directory // "sound.wav") ++ u " "
                         ++ u (directory // "tmp.plp") ++ [Str.NEWLINE]])
              w1 Hq1) as [Hq2 Hf2].
  remember (write_data (directory // "codetr.scp") _ w1) as w2.
  destruct (write_data_quiescent script_file
              (TextFile [u (directory // "tmp.plp") ++ [Str.NEWLINE]])
              w2 Hq2) as [Hq3 Hf3].
  remember (write_data script_file _ w2) as w3.
  destruct (tick_quiescent w3 Hq3) as [Hfiles _].
  unfold spawn. cbn [files set_procs]. rewrite Hfiles, Hf3, Hf2, Hf1.
  reflexivity.
Qed.

End PipelineShape.


Lemma format_writes_three_witness :
  files (@Aligner.format Fake.collaborators
           (@Aligner.__init__ Fake.collaborators) "/tmp/tmp0" [1; 2]
           "/tmp/tmp0/test.scp" Fake.empty_world).2
  = <["/tmp/tmp0/test.scp" :=
        TextFile [u ("/tmp/tmp0" // "tmp.plp") ++ [Str.NEWLINE]]]>
      (<["/tmp/tmp0" // "codetr.scp" :=
           TextFile [u ("/tmp/tmp0" // "sound.wav") ++ u " "
                     ++ u ("/tmp/tmp0" // "tmp.plp") ++ [Str.NEWLINE]]]>
         (<["/tmp/tmp0" // "sound.wav" := Wav [1; 2] SAMPLE_RATE]>
            (files Fake.empty_world))).
Proof.
  apply (@format_writes_three Fake.collaborators
           (@Aligner.__init__ Fake.collaborators) "/tmp/tmp0" [1; 2]
           "/tmp/tmp0/test.scp" Fake.empty_world).
  constructor.
Defined.

(** ** More on the batch driver *)

Section BatchShape.
Context `{Collaborators}.



(** X16: lists of unequal lengths raise nothing: the batch is the one of
    the first n files of each list, n the length of the shortest; the
    files beyond are ignored. *)
Theorem from_files_to_files_truncates
    (text_files audio_files output_files : list string)
    (num_workers : option nat) (w : World) :
  let n := (length text_files `min`
            (length audio_files `min` length output_files))%nat in
  from_files_to_files text_files audio_files output_files num_workers w
  = from_files_to_files (take n text_files) (take n audio_files)
      (take n output_files) num_workers w.
Proof.
  intros n. unfold from_files_to_files. cbv zeta.
  assert (Hitems : zip (zip (take n text_files) (take n audio_files))
                       (take n output_files)
                   = zip (zip text_files audio_files) output_files).
  { rewrite <- (zip_with_take pair n text_files audio_files).
    apply zip_with_take_both'; rewrite length_zip_with; lia. }
  rewrite Hitems. reflexivity.
Qed.

End BatchShape.


(** ** What the normaliser leaves in a text *)

Section NormalizerAlphabet.
Context `{Collaborators}.

(** X17: on a text without ASCII digits, [lint] introduces no character
    but the space: every character of lint(t) is a character of t or a
    space, and none is a newline or a tab. *)
Theorem lint_introduces_nothing (text : str) (c : N) :
  fixes_digit_free normalize_numbers ->
  digit_free text ->
  c ∈ Aligner.lint Aligner.__init__ text ->
  (c ∈ text \/ c = Str.SPACE) /\ c <> Str.NEWLINE /\ c <> Str.TAB.
Proof.
  intros Hfix Hfree Hc. rewrite (lint_digit_free text Hfix Hfree) in Hc.
  assert (Hall : Forall (fun c => (c ∈ text \/ c = Str.SPACE)
                                  /\ c <> Str.NEWLINE /\ c <> Str.TAB)
                   (Str.translate table (spaced text))).
  { apply translate_Forall.
    - intros a a' Hlook. rewrite (punctuation_table_entries a a' Hlook).
      split; [right; reflexivity|]. split; discriminate.
    - unfold spaced. apply collapse_spaces_Forall.
      unfold Str.replace_char. rewrite map_map. apply Forall_map.
      apply Forall_forall. intros a Ha. cbn beta.
      destruct (N.eqb_spec a Str.NEWLINE) as [->|Hnl].
      + split; [right; reflexivity|]. split; discriminate.
      + destruct (N.eqb_spec a Str.TAB) as [->|Htab].
        * split; [right; reflexivity|]. split; discriminate.
        * split; [left; exact Ha|]. split; assumption. }
  rewrite Forall_forall in Hall. exact (Hall c Hc).
Qed.

End NormalizerAlphabet.

Lemma lint_introduces_nothing_witness :
  97%N ∈ @Aligner.lint Fake.collaborators (@Aligner.__init__ Fake.collaborators)
           (u "a-b")
  /\ (97%N ∈ u "a-b" \/ 97%N = Str.SPACE)
  /\ 97%N <> Str.NEWLINE /\ 97%N <> Str.TAB.
Proof.
  assert (Hin : 97%N ∈ @Aligner.lint Fake.collaborators
                         (@Aligner.__init__ Fake.collaborators) (u "a-b")).
  { apply (bool_decide_unpack _). vm_compute. exact I. }
  split; [exact Hin|].
  apply (@lint_introduces_nothing Fake.collaborators (u "a-b") 97%N).
  - intros text _. reflexivity.
  - apply (bool_decide_unpack _). vm_compute. exact I.
  - exact Hin.
Defined.
